(** * LavaPairingSystem: the provider pairing pipeline

    A shallow embedding of the Go packages [pairing] (models), [filter],
    [score], [utils], [system], [config] and [mock], followed by the
    properties of the pairing pipeline.

    Modelling conventions.
    - [int64] and [int] values are integers in [Z] / [nat]; the code only
      compares them, counts with them and converts them to [float64], so
      no wrap-around can occur.
    - [float64] values are exact rationals in [Q]; equality of scores is
      [Qeq] ([==]).  Rounding, infinities and NaN are not modelled there.
      The two loops whose result depends on how float64 rounds, the
      weighted sum of [rankWorker] and the total of [checkWeightSum], are
      given in module [arith] over an arbitrary arithmetic and read at
      IEEE binary64, which is Go's float64.
    - [map[string]T] is [gmap string T]; a [nil] map and an empty map both
      have length 0 and are the empty [gmap].
    - [*Provider] and [*ConsumerPolicy] are non-nil and are passed by value:
      nothing in the pipeline writes through them.
    - Go interfaces ([Filter], [Scorer]) are records of methods.
    - Logging is dropped.
    - The worker pools deliver their results in an order that depends on
      scheduling, and [sort.Slice] is not stable.  Every function below
      computes one admissible run (results in task order, insertion sort);
      the [_may] relations hold of the result of every run (any arrival
      order, any sorted rearrangement), so a property proved for all
      results related by [_may] holds for all runs. *)

From Stdlib Require Import QArith Qminmax Lqa ZArith Lia List Permutation Sorted.
From Stdlib Require Import String Ascii Bool Floats.
From stdpp Require Import base gmap strings list fin_maps.

Local Open Scope string_scope.
Local Open Scope Q_scope.

(** ** Package [pairing]: models.go *)

Module pairing.

Record Provider : Type := {
  ID : string;
  Fee : Q;
  Address : string;
  Stake : Z;
  Location : string;
  Features : list string
}.

Record ConsumerPolicy : Type := {
  RequiredLocation : string;
  RequiredFeatures : list string;
  MinStake : Z;
  Weights : gmap string Q
}.

Record PairingScore : Type := {
  Provider_ : Provider;
  Score : Q;
  Components : gmap string Q
}.

End pairing.

(** ** Package [filter] *)

Module filter.

Record Filter : Type := {
  Apply : list pairing.Provider -> pairing.ConsumerPolicy -> list pairing.Provider;
  ApplySingle : pairing.Provider -> pairing.ConsumerPolicy -> bool;
  Name : string
}.

(** [required := make(map[string]bool)] filled from the policy: only the
    key set is ever used. *)
Definition requiredSet (features : list string) : gset string :=
  list_to_set features.

(** The inner loop [for _, pf := range p.Features { if pf == req ... }]. *)
Definition found (req : string) (features : list string) : bool :=
  existsb (String.eqb req) features.

(** The loop [for req := range required] over a given iteration order of
    the keys; it stops at the first key that is not found. *)
Definition hasAll (keys : list string) (features : list string) : bool :=
  forallb (fun req => found req features) keys.

Definition LocationFilter : Filter := {|
  Apply := fun providers policy =>
    List.filter (fun p => String.eqb (pairing.Location p) (pairing.RequiredLocation policy))
                providers;
  ApplySingle := fun provider policy =>
    String.eqb (pairing.Location provider) (pairing.RequiredLocation policy);
  Name := "LocationFilter"
|}.

Definition FeatureFilter : Filter := {|
  Apply := fun providers policy =>
    let required := requiredSet (pairing.RequiredFeatures policy) in
    List.filter (fun p => hasAll (elements required) (pairing.Features p)) providers;
  ApplySingle := fun provider policy =>
    let required := requiredSet (pairing.RequiredFeatures policy) in
    hasAll (elements required) (pairing.Features provider);
  Name := "FeatureFilter"
|}.

Definition StakeFilter : Filter := {|
  Apply := fun providers policy =>
    List.filter (fun p => (pairing.MinStake policy <=? pairing.Stake p)%Z) providers;
  ApplySingle := fun provider policy =>
    (pairing.MinStake policy <=? pairing.Stake provider)%Z;
  Name := "StakeFilter"
|}.

End filter.

(** ** Package [score] *)

Module score.

Record PreScoreContext : Type := {
  MaxStake : Z;
  AverageLatency : Q;
  NormalizedFees : gmap string Q
}.

Record Scorer : Type := {
  Score : pairing.Provider -> pairing.ConsumerPolicy -> PreScoreContext -> Q;
  Name : string
}.

(** [strings.EqualFold] is Go library code.  It compares under Unicode
    simple case folding; here strings are byte strings and the letters
    A-Z are folded onto a-z, which is what [EqualFold] does on ASCII
    text.  Other bytes are compared as they are. *)
Definition foldByte (c : ascii) : ascii :=
  let n := nat_of_ascii c in
  if ((65 <=? n) && (n <=? 90))%nat then ascii_of_nat (n + 32) else c.

Fixpoint EqualFold (s t : string) : bool :=
  match s, t with
  | EmptyString, EmptyString => true
  | String a s', String b t' => Ascii.eqb (foldByte a) (foldByte b) && EqualFold s' t'
  | _, _ => false
  end.

Definition StakeScore : Scorer := {|
  Score := fun p _ ctx =>
    if (MaxStake ctx =? 0)%Z then 0
    else inject_Z (pairing.Stake p) / inject_Z (MaxStake ctx);
  Name := "StakeScore"
|}.

(** [required[feat] = true] for every required feature. *)
Definition requiredMap (features : list string) : gmap string bool :=
  fold_left (fun required feat => <[feat := true]> required) features ∅.

(** [extra++] for every provider feature [pf] with [!required[pf]]; a
    missing key reads as [false]. *)
Definition countExtra (required : gmap string bool) (features : list string) : nat :=
  fold_left (fun extra pf => if negb (default false (required !! pf)) then S extra else extra)
            features 0%nat.

Definition FeatureScore : Scorer := {|
  Score := fun p policy _ =>
    if (length (pairing.Features p) =? 0)%nat then 0
    else
      let required := requiredMap (pairing.RequiredFeatures policy) in
      let extra := countExtra required (pairing.Features p) in
      inject_Z (Z.of_nat extra) / inject_Z (Z.of_nat (length (pairing.Features p)));
  Name := "FeatureScore"
|}.

Definition LocationScore : Scorer := {|
  Score := fun p policy _ =>
    if EqualFold (pairing.Location p) (pairing.RequiredLocation policy) then 1 else 1 # 2;
  Name := "LocationScore"
|}.

Definition FeeScore : Scorer := {|
  Score := fun provider _ ctx =>
    match NormalizedFees ctx !! pairing.ID provider with
    | None => 0
    | Some fee => 1 - fee
    end;
  Name := "FeeScore"
|}.

End score.

(** ** Package [utils] *)

Module utils.

Definition Min (a b : Z) : Z := if (a <? b)%Z then a else b.

Definition ComputeMaxStake (providers : list pairing.Provider) : Z :=
  fold_left (fun maxStake p =>
               if (maxStake <? pairing.Stake p)%Z then pairing.Stake p else maxStake)
            providers 0%Z.

(** [a > b] on [float64]. *)
Definition Qgtb (a b : Q) : bool := negb (Qle_bool a b).

(** Step 1 of [ComputeNormalizedFees]. *)
Definition maxFeeOf (providers : list pairing.Provider) : Q :=
  fold_left (fun maxFee p => if Qgtb (pairing.Fee p) maxFee then pairing.Fee p else maxFee)
            providers 0.

Definition ComputeNormalizedFees (providers : list pairing.Provider) : gmap string Q :=
  let maxFee := maxFeeOf providers in
  let maxFee := if Qeq_bool maxFee 0 then 1 else maxFee in
  fold_left (fun normalized p => <[pairing.ID p := pairing.Fee p / maxFee]> normalized)
            providers ∅.

End utils.

(** ** Package [system] *)

Module system.

Definition topNProviders : Z := 5.
Definition parallelFilterThreshold : nat := 50.
Definition workerCount : nat := 10.

Record pairingSystem : Type := {
  filters : list filter.Filter;
  scorers : list score.Scorer;
  strictMode : bool
}.

Definition NewPairingSystem (filters : list filter.Filter) (scorers : list score.Scorer)
           (strictMode : bool) : pairingSystem :=
  {| filters := filters; scorers := scorers; strictMode := strictMode |}.

(** *** Workers *)

(** The body of [filterWorker] for one task: [pass] after the loop over
    [ps.filters], which breaks at the first rejecting filter. *)
Definition filterWorker (ps : pairingSystem) (policy : pairing.ConsumerPolicy)
           (p : pairing.Provider) : bool :=
  forallb (fun f => filter.ApplySingle f p policy) (filters ps).

(** The first loop of [rankWorker]: [components] and [totalScore]. *)
Definition scoreAll (scorers : list score.Scorer) (p : pairing.Provider)
           (policy : pairing.ConsumerPolicy) (preScoreCtx : score.PreScoreContext)
  : gmap string Q * Q :=
  fold_left (fun acc scorer =>
               let s := score.Score scorer p policy preScoreCtx in
               (<[score.Name scorer := s]> (fst acc), snd acc + s))
            scorers (∅, 0).

(** The loop [for name, scoreValue := range components] over a given
    iteration order of the entries. *)
Definition weightedSumOver (entries : list (string * Q)) (weights : gmap string Q) : Q :=
  fold_left (fun weightedSum entry =>
               match weights !! fst entry with
               | Some weight => weightedSum + snd entry * weight
               | None => weightedSum
               end)
            entries 0.

(** The combiner: the second half of the body of [rankWorker]. *)
Definition finalScoreOf (nScorers : nat) (components : gmap string Q) (totalScore : Q)
           (weights : gmap string Q) : Q :=
  if (0 <? size weights)%nat then weightedSumOver (map_to_list components) weights
  else if (0 <? nScorers)%nat then totalScore / inject_Z (Z.of_nat nScorers)
  else 0.

(** The body of [rankWorker] for one task. *)
Definition rankWorker (ps : pairingSystem) (policy : pairing.ConsumerPolicy)
           (preScoreCtx : score.PreScoreContext) (p : pairing.Provider)
  : pairing.PairingScore :=
  let st := scoreAll (scorers ps) p policy preScoreCtx in
  let components := fst st in
  let totalScore := snd st in
  {| pairing.Provider_ := p;
     pairing.Score :=
       finalScoreOf (length (scorers ps)) components totalScore (pairing.Weights policy);
     pairing.Components := components |}.

(** *** Core *)

(** One run of [parallelFilterProviders]: results in task order. *)
Definition parallelFilterProviders (ps : pairingSystem) (providers : list pairing.Provider)
           (policy : pairing.ConsumerPolicy) : list pairing.Provider :=
  List.filter (filterWorker ps policy) providers.

(** The sequential branch of [FilterProviders]. *)
Definition sequentialFilterProviders (ps : pairingSystem) (providers : list pairing.Provider)
           (policy : pairing.ConsumerPolicy) : list pairing.Provider :=
  fold_left (fun filtered f => filter.Apply f filtered policy) (filters ps) providers.

Definition FilterProviders (ps : pairingSystem) (providers : list pairing.Provider)
           (policy : pairing.ConsumerPolicy) : list pairing.Provider :=
  if (length providers =? 0)%nat then []
  else if (length providers <=? parallelFilterThreshold)%nat
       then sequentialFilterProviders ps providers policy
       else parallelFilterProviders ps providers policy.

(** All runs of [FilterProviders]: the worker pool may deliver the
    survivors in any order. *)
Definition FilterProviders_may (ps : pairingSystem) (providers : list pairing.Provider)
           (policy : pairing.ConsumerPolicy) (out : list pairing.Provider) : Prop :=
  if (length providers =? 0)%nat then out = []
  else if (length providers <=? parallelFilterThreshold)%nat
       then out = sequentialFilterProviders ps providers policy
       else Permutation out (parallelFilterProviders ps providers policy).

(** The normalization context built at the start of [RankProviders]. *)
Definition preScoreCtxOf (providers : list pairing.Provider) : score.PreScoreContext :=
  let currentMaxStake := utils.ComputeMaxStake providers in
  let currentMaxStake := if (currentMaxStake =? 0)%Z then 1%Z else currentMaxStake in
  let normalizedFees := utils.ComputeNormalizedFees providers in
  {| score.MaxStake := currentMaxStake;
     score.AverageLatency := 0;
     score.NormalizedFees := normalizedFees |}.

(** One run of [RankProviders]: results in task order. *)
Definition RankProviders (ps : pairingSystem) (providers : list pairing.Provider)
           (policy : pairing.ConsumerPolicy) : list pairing.PairingScore :=
  if (length providers =? 0)%nat then []
  else map (rankWorker ps policy (preScoreCtxOf providers)) providers.

(** All runs of [RankProviders]. *)
Definition RankProviders_may (ps : pairingSystem) (providers : list pairing.Provider)
           (policy : pairing.ConsumerPolicy) (out : list pairing.PairingScore) : Prop :=
  Permutation out (RankProviders ps providers policy).

(** The comparison handed to [sort.Slice]. *)
Definition less (a b : pairing.PairingScore) : bool :=
  utils.Qgtb (pairing.Score a) (pairing.Score b).

(** [sort.Slice] is Go library code; one run of it is an insertion sort. *)
Fixpoint insertSorted (x : pairing.PairingScore) (l : list pairing.PairingScore)
  : list pairing.PairingScore :=
  match l with
  | [] => [x]
  | y :: l' => if less x y then x :: y :: l' else y :: insertSorted x l'
  end.

Definition sortSlice (l : list pairing.PairingScore) : list pairing.PairingScore :=
  fold_right insertSorted [] l.

(** All runs of [sort.Slice]: some rearrangement in which no element is
    [less] than one placed before it. *)
Definition sortSlice_may (l out : list pairing.PairingScore) : Prop :=
  Permutation out l /\ StronglySorted (fun a b => less b a = false) out.

(** Step 4 of [GetPairingList]. *)
Definition selectTop (scored : list pairing.PairingScore) : list pairing.Provider :=
  let finalCount := utils.Min topNProviders (Z.of_nat (length scored)) in
  map pairing.Provider_ (firstn (Z.to_nat finalCount) scored).

Definition errNoMatch : string := "strict mode: no providers matched the filter criteria".

(** [GetPairingList] returns the pair (providers, error); a [nil] slice
    is the empty list and a [nil] error is [None]. *)
Definition GetPairingList (ps : pairingSystem) (providers : list pairing.Provider)
           (policy : pairing.ConsumerPolicy) : list pairing.Provider * option string :=
  let filtered := FilterProviders ps providers policy in
  if (length filtered =? 0)%nat then
    if strictMode ps then ([], Some errNoMatch) else ([], None)
  else
    let scored := RankProviders ps filtered policy in
    let scored := sortSlice scored in
    (selectTop scored, None).

(** All runs of [GetPairingList]. *)
Inductive GetPairingList_may (ps : pairingSystem) (providers : list pairing.Provider)
          (policy : pairing.ConsumerPolicy) : list pairing.Provider * option string -> Prop :=
| run_strict (filtered : list pairing.Provider) :
    FilterProviders_may ps providers policy filtered ->
    length filtered = 0%nat ->
    strictMode ps = true ->
    GetPairingList_may ps providers policy ([], Some errNoMatch)
| run_lenient (filtered : list pairing.Provider) :
    FilterProviders_may ps providers policy filtered ->
    length filtered = 0%nat ->
    strictMode ps = false ->
    GetPairingList_may ps providers policy ([], None)
| run_ranked (filtered : list pairing.Provider) (scored sorted : list pairing.PairingScore) :
    FilterProviders_may ps providers policy filtered ->
    length filtered <> 0%nat ->
    RankProviders_may ps filtered policy scored ->
    sortSlice_may scored sorted ->
    GetPairingList_may ps providers policy (selectTop sorted, None).

(** Step 4 of [GetPairingList] as it is written: the loop
    [for i := 0; i < finalCount; i++] reads [scored[i]], and an index past
    the end of the slice is a run-time panic, here [None]. *)
Fixpoint selectLoop (scored : list pairing.PairingScore) (i : nat) (remaining : nat)
         (topProviders : list pairing.Provider) : option (list pairing.Provider) :=
  match remaining with
  | O => Some topProviders
  | S remaining' =>
      match scored !! i with
      | Some sc => selectLoop scored (S i) remaining' (topProviders ++ [pairing.Provider_ sc])%list
      | None => None
      end
  end.

Definition selectTopIndexed (scored : list pairing.PairingScore)
  : option (list pairing.Provider) :=
  let finalCount := utils.Min topNProviders (Z.of_nat (length scored)) in
  selectLoop scored 0 (Z.to_nat finalCount) [].

End system.

(** ** Package [config] *)

Module config.

Definition Filters : list filter.Filter :=
  [filter.LocationFilter; filter.FeatureFilter; filter.StakeFilter].

Definition Scorers : list score.Scorer :=
  [score.StakeScore; score.FeatureScore; score.LocationScore; score.FeeScore].

Definition Init (strictMode : bool) : system.pairingSystem :=
  system.NewPairingSystem Filters Scorers strictMode.

End config.

(** ** Package [mock] *)

Module mock.

Definition provider1 : pairing.Provider :=
  {| pairing.ID := "1"; pairing.Address := "provider1"; pairing.Stake := 1000;
     pairing.Location := "US-West"; pairing.Features := ["featA"; "featB"; "featC"];
     pairing.Fee := 3 |}.
Definition provider2 : pairing.Provider :=
  {| pairing.ID := "2"; pairing.Address := "provider2"; pairing.Stake := 2000;
     pairing.Location := "US-East"; pairing.Features := ["featA"; "featB"];
     pairing.Fee := 15 # 1000 |}.
Definition provider3 : pairing.Provider :=
  {| pairing.ID := "3"; pairing.Address := "provider3"; pairing.Stake := 1500;
     pairing.Location := "EU-Central"; pairing.Features := ["featA"; "featC"; "featD"];
     pairing.Fee := 45 # 10 |}.
Definition provider4 : pairing.Provider :=
  {| pairing.ID := "4"; pairing.Address := "provider4"; pairing.Stake := 500;
     pairing.Location := "US-West"; pairing.Features := ["featB"];
     pairing.Fee := 5 # 1000 |}.
Definition provider5 : pairing.Provider :=
  {| pairing.ID := "5"; pairing.Address := "provider5"; pairing.Stake := 2500;
     pairing.Location := "US-West";
     pairing.Features := ["featA"; "featB"; "featC"; "featExtra"];
     pairing.Fee := 8 # 10 |}.
Definition provider6 : pairing.Provider :=
  {| pairing.ID := "6"; pairing.Address := "provider6"; pairing.Stake := 1200;
     pairing.Location := "EU-Central"; pairing.Features := ["featA"; "featD"; "featE"];
     pairing.Fee := 17 # 10 |}.
Definition provider7 : pairing.Provider :=
  {| pairing.ID := "7"; pairing.Address := "provider7"; pairing.Stake := 800;
     pairing.Location := "US-East";
     pairing.Features := ["featA"; "featB"; "featC"; "featX"];
     pairing.Fee := 2 |}.
Definition provider8 : pairing.Provider :=
  {| pairing.ID := "8"; pairing.Address := "provider8"; pairing.Stake := 3000;
     pairing.Location := "US-West";
     pairing.Features := ["featA"; "featB"; "featC"; "featY"; "featZ"];
     pairing.Fee := 25 # 10 |}.

Definition Providers : list pairing.Provider :=
  [provider1; provider2; provider3; provider4; provider5; provider6; provider7; provider8].

Definition ConsumerPolicy : pairing.ConsumerPolicy :=
  {| pairing.RequiredLocation := "US-West";
     pairing.RequiredFeatures := ["featA"; "featB"];
     pairing.MinStake := 1000;
     pairing.Weights :=
       <["StakeScore" := 1 # 2]> (<["FeatureScore" := 3 # 10]> (<["LocationScore" := 1 # 5]> ∅)) |}.

End mock.

(** ** Arithmetic

    The loops of the code whose result depends on the rounding of float64
    are written here once, over an arbitrary arithmetic, and take the
    order in which [range] visits the map as an argument.  [exact] is the
    arithmetic of the rest of the embedding; [binary64] is IEEE 754 double
    precision with round to nearest even, each operation rounded on its
    own, which is Go's float64 where the compiler does not fuse a
    multiplication with an addition. *)

Module arith.

Record Arith (A : Type) : Type := {
  zero : A;
  one : A;
  add : A -> A -> A;
  mul : A -> A -> A;
  eqb : A -> A -> bool
}.

Arguments zero {A}.
Arguments one {A}.
Arguments add {A}.
Arguments mul {A}.
Arguments eqb {A}.

Definition exact : Arith Q :=
  {| zero := 0; one := 1; add := Qplus; mul := Qmult; eqb := Qeq_bool |}.

Definition binary64 : Arith float :=
  {| zero := 0%float; one := 1%float;
     add := PrimFloat.add; mul := PrimFloat.mul; eqb := PrimFloat.eqb |}.

(** A decimal constant [n/d] of the Go source: the float64 nearest to
    the quotient. *)
Definition decimal (n d : float) : float := PrimFloat.div n d.

(** The loop [for name, scoreValue := range components] of [rankWorker]
    over the entries in the order they are visited. *)
Definition weightedSumOver {A} (ar : Arith A) (entries : list (string * A))
           (weights : gmap string A) : A :=
  fold_left (fun weightedSum entry =>
               match weights !! fst entry with
               | Some weight => add ar weightedSum (mul ar (snd entry) weight)
               | None => weightedSum
               end)
            entries (zero ar).

(** The loop [for _, weight := range weights] of [checkWeightSum]. *)
Definition sumWeightsOver {A} (ar : Arith A) (entries : list (string * A)) : A :=
  fold_left (fun total entry => add ar total (snd entry)) entries (zero ar).

(** [checkWeightSum]; the error
    [fmt.Errorf("weights must sum to 1, got %.2f", total)] is kept as the
    total it reports, and a [nil] error is [None]. *)
Definition checkWeightSum {A} (ar : Arith A) (entries : list (string * A)) : option A :=
  let total := sumWeightsOver ar entries in
  if negb (eqb ar total (one ar)) then Some total else None.

(** [ValidateWeights]; [entries] are the entries of the mapping in the
    order in which they are visited, so [len(weights)] is their number. *)
Definition ValidateWeights {A} (ar : Arith A) (entries : list (string * A)) : option A :=
  if (length entries =? 0)%nat then None
  else
    match checkWeightSum ar entries with
    | Some err => Some err
    | None => None
    end.

(** The entry's name is a key of the mapping. *)
Definition present {A} (weights : gmap string A) (entry : string * A) : bool :=
  match weights !! fst entry with
  | Some _ => true
  | None => false
  end.

(** The products that the weighted loop adds, in the order it adds them. *)
Definition presentProducts {A} (ar : Arith A) (weights : gmap string A)
           (entries : list (string * A)) : list A :=
  flat_map (fun entry =>
              match weights !! fst entry with
              | Some weight => [mul ar (snd entry) weight]
              | None => []
              end)
           entries.

(** Two visits of the same names in the same order that differ only in
    the values stored under names outside the mapping. *)
Definition differOnlyOnAbsent {A} (weights : gmap string A)
           (entries entries' : list (string * A)) : Prop :=
  Forall2 (fun e e' => fst e = fst e' /\ (present weights e = true -> snd e = snd e'))
          entries entries'.

End arith.

(** * Concrete inputs used in the examples *)

Module inputs.

(** A provider that meets the mock policy except that its location is
    spelled in lower case. *)
Definition lowerCaseWest : pairing.Provider :=
  {| pairing.ID := "9"; pairing.Address := "provider9"; pairing.Stake := 5000;
     pairing.Location := "us-west"; pairing.Features := ["featA"; "featB"];
     pairing.Fee := 1 |}.

(** The context [RankProviders] builds for the pool that holds provider 1
    alone: its maximum stake, 1000, is below the stake of provider 2. *)
Definition smallCtx : score.PreScoreContext := system.preScoreCtxOf [mock.provider1].

(** A policy without weights. *)
Definition noWeights : pairing.ConsumerPolicy :=
  {| pairing.RequiredLocation := "US-West";
     pairing.RequiredFeatures := ["featA"; "featB"];
     pairing.MinStake := 1000;
     pairing.Weights := ∅ |}.

(** A policy that no mock provider satisfies. *)
Definition antarctica : pairing.ConsumerPolicy :=
  {| pairing.RequiredLocation := "Antarctica";
     pairing.RequiredFeatures := ["featA"; "featB"];
     pairing.MinStake := 1000;
     pairing.Weights := ∅ |}.

(** A pool without stake. *)
Definition stakeless (id : string) : pairing.Provider :=
  {| pairing.ID := id; pairing.Address := "provider" ++ id; pairing.Stake := 0;
     pairing.Location := "US-West"; pairing.Features := ["featA"];
     pairing.Fee := 1 |}.

Definition stakelessPool : list pairing.Provider := [stakeless "1"; stakeless "2"].

(** A pool large enough for the worker path of [FilterProviders]: the mock
    pool eight times over. *)
Definition largePool : list pairing.Provider := concat (repeat mock.Providers 8).


(** The components of provider 5 of the mock pool as float64: stake
    2500 of 3000, 2 extra features of 4, matching location, and fee 0.8
    of 3.0. *)
Definition stake5 : string * float := ("StakeScore", PrimFloat.div 2500 3000).
Definition feature5 : string * float := ("FeatureScore", PrimFloat.div 2 4).
Definition location5 : string * float := ("LocationScore", 1%float).
Definition fee5 : string * float :=
  ("FeeScore", PrimFloat.sub 1 (PrimFloat.div (arith.decimal 8 10) 3)).

(** The weights of the mock policy as float64. *)
Definition mockWeights64 : gmap string float :=
  <["StakeScore" := arith.decimal 5 10]>
    (<["FeatureScore" := arith.decimal 3 10]>
       (<["LocationScore" := arith.decimal 2 10]> ∅)).

(** Two orders in which [range] may visit the components of provider 5. *)
Definition visit5 : list (string * float) := [stake5; feature5; location5; fee5].
Definition visit5' : list (string * float) := [stake5; location5; feature5; fee5].

(** The weights 0.7, 0.2 and 0.1 in two visiting orders. *)
Definition sevenTwoOne : list (string * float) :=
  [("a", arith.decimal 7 10); ("b", arith.decimal 2 10); ("c", arith.decimal 1 10)].
Definition oneTwoSeven : list (string * float) :=
  [("c", arith.decimal 1 10); ("b", arith.decimal 2 10); ("a", arith.decimal 7 10)].

End inputs.

(** * Specification-side notions

    These follow the wording of the design document, not the code; the
    properties below compare them with the embedding. *)

(** A filter is consistent when [Apply] selects exactly the elements that
    [ApplySingle] accepts, in their original order. *)
Definition consistent (f : filter.Filter) : Prop :=
  forall l policy,
    filter.Apply f l policy = List.filter (fun p => filter.ApplySingle f p policy) l.

(** A provider passes every configured filter. *)
Definition passesAll (ps : system.pairingSystem) (policy : pairing.ConsumerPolicy)
           (p : pairing.Provider) : Prop :=
  forall f, In f (system.filters ps) -> filter.ApplySingle f p policy = true.

(** The raw outputs of the configured scorers for one provider. *)
Definition rawOutputs (scorers : list score.Scorer) (p : pairing.Provider)
           (policy : pairing.ConsumerPolicy) (ctx : score.PreScoreContext) : list Q :=
  map (fun s => score.Score s p policy ctx) scorers.

Definition Qsum (xs : list Q) : Q := fold_right Qplus 0 xs.

(** Straight arithmetic mean, 0 for no values. *)
Definition arithmeticMean (xs : list Q) : Q :=
  match xs with
  | [] => 0
  | _ => Qsum xs / inject_Z (Z.of_nat (length xs))
  end.

(** What one scorer contributes in weighted mode: output times weight when
    its name is in the mapping, exactly 0 otherwise. *)
Definition contribution (weights : gmap string Q) (name : string) (raw : Q) : Q :=
  match weights !! name with
  | Some weight => raw * weight
  | None => 0
  end.

(** A score in the closed unit interval. *)
Definition inUnit (x : Q) : Prop := 0 <= x /\ x <= 1.

(** * Auxiliary notions for the combiner *)

(** The first loop of [rankWorker] started from an arbitrary state. *)
Definition scoreFrom (p : pairing.Provider) (policy : pairing.ConsumerPolicy)
           (ctx : score.PreScoreContext) (acc : gmap string Q * Q)
           (scorers : list score.Scorer) : gmap string Q * Q :=
  fold_left (fun acc scorer =>
               let s := score.Score scorer p policy ctx in
               (<[score.Name scorer := s]> (fst acc), snd acc + s))
            scorers acc.

Definition entryContribution (weights : gmap string Q) (entry : string * Q) : Q :=
  contribution weights (fst entry) (snd entry).

(** * Auxiliary notions for the further properties *)

(** Step 2 of [ComputeNormalizedFees]: the divisor of every fee. *)
Definition feeDivisor (providers : list pairing.Provider) : Q :=
  if Qeq_bool (utils.maxFeeOf providers) 0 then 1 else utils.maxFeeOf providers.

(** The features of a provider that the policy does not require, with
    their repetitions. *)
Definition extraFeatures (required features : list string) : list string :=
  List.filter (fun pf => negb (existsb (String.eqb pf) required)) features.

(** No two records of the list have the same final score. *)
Definition distinctScores (l : list pairing.PairingScore) : Prop :=
  ForallOrdPairs (fun a b => ~ pairing.Score a == pairing.Score b) l.

(** The policy dimensions as the filters test them. *)
Definition meetsPolicy (policy : pairing.ConsumerPolicy) (p : pairing.Provider) : Prop :=
  pairing.Location p = pairing.RequiredLocation policy
  /\ (forall r, In r (pairing.RequiredFeatures policy) -> In r (pairing.Features p))
  /\ (pairing.MinStake policy <= pairing.Stake p)%Z.

(** * Properties *)

(** ** Filters *)

Section FilterFacts.

Import filter.

Lemma LocationFilter_consistent : consistent LocationFilter.
Proof. intros l policy. reflexivity. Qed.

Lemma FeatureFilter_consistent : consistent FeatureFilter.
Proof. intros l policy. reflexivity. Qed.

Lemma StakeFilter_consistent : consistent StakeFilter.
Proof. intros l policy. reflexivity. Qed.

Lemma config_Filters_consistent f : In f config.Filters -> consistent f.
Proof.
  simpl. intros [<- | [<- | [<- | []]]].
  - apply LocationFilter_consistent.
  - apply FeatureFilter_consistent.
  - apply StakeFilter_consistent.
Qed.

Lemma filter_twice {A} (f g : A -> bool) (l : list A) :
  List.filter g (List.filter f l) = List.filter (fun x => f x && g x) l.
Proof.
  induction l as [| x l IH]; simpl; [reflexivity |].
  destruct (f x); simpl; [destruct (g x) |]; now rewrite IH.
Qed.

Lemma sequential_is_filter (fs : list Filter) policy :
  Forall consistent fs ->
  forall l,
    fold_left (fun filtered f => Apply f filtered policy) fs l
    = List.filter (fun p => forallb (fun f => ApplySingle f p policy) fs) l.
Proof.
  induction 1 as [| f fs Hf _ IH]; intros l; simpl.
  - induction l as [| x l IHl]; simpl; congruence.
  - rewrite IH, Hf. apply filter_twice.
Qed.

(** The order in which [range required] visits the keys does not change
    the verdict of the feature filter. *)
Lemma hasAll_order keys keys' features :
  Permutation keys keys' -> hasAll keys features = hasAll keys' features.
Proof.
  unfold hasAll. induction 1; simpl.
  - reflexivity.
  - now rewrite IHPermutation.
  - now rewrite !andb_assoc, (andb_comm (found y features)).
  - congruence.
Qed.

Lemma FilterProviders_eq ps providers policy :
  Forall consistent (system.filters ps) ->
  system.FilterProviders ps providers policy
  = List.filter (system.filterWorker ps policy) providers.
Proof.
  intros Hc. unfold system.FilterProviders.
  destruct providers as [| p providers]; [reflexivity |].
  cbn [length Nat.eqb].
  destruct (_ <=? _)%nat; [| reflexivity].
  unfold system.sequentialFilterProviders. now rewrite sequential_is_filter.
Qed.

Lemma FilterProviders_may_run ps providers policy :
  system.FilterProviders_may ps providers policy (system.FilterProviders ps providers policy).
Proof.
  unfold system.FilterProviders_may, system.FilterProviders.
  destruct (_ =? _)%nat; [reflexivity |].
  destruct (_ <=? _)%nat; reflexivity.
Qed.

Lemma FilterProviders_may_perm ps providers policy out :
  system.FilterProviders_may ps providers policy out ->
  Permutation out (system.FilterProviders ps providers policy).
Proof.
  unfold system.FilterProviders_may, system.FilterProviders.
  destruct (_ =? _)%nat; [now intros -> |].
  destruct (_ <=? _)%nat; [now intros -> | trivial].
Qed.

End FilterFacts.

(** C3: for a system whose filters are drawn from the configured set
    (Location, Feature, Stake), every filter's [Apply] is the subsequence
    accepted by its [ApplySingle]; the sequential path and the function
    [FilterProviders] return the subsequence of providers that every filter
    accepts; every run, sequential or through the worker pool, returns a
    rearrangement of that subsequence; so a provider is in the output iff
    it is in the input and [ApplySingle] holds for it under every filter. *)
Theorem FilterProviders_conjunctive ps providers policy :
  Forall (fun f => In f config.Filters) (system.filters ps) ->
  (forall f l, In f (system.filters ps) ->
     filter.Apply f l policy = List.filter (fun p => filter.ApplySingle f p policy) l)
  /\ system.sequentialFilterProviders ps providers policy
     = List.filter (system.filterWorker ps policy) providers
  /\ system.parallelFilterProviders ps providers policy
     = List.filter (system.filterWorker ps policy) providers
  /\ system.FilterProviders ps providers policy
     = List.filter (system.filterWorker ps policy) providers
  /\ (forall p, system.filterWorker ps policy p = true <-> passesAll ps policy p)
  /\ (forall out, system.FilterProviders_may ps providers policy out ->
        Permutation out (List.filter (system.filterWorker ps policy) providers)
        /\ forall p, In p out <-> In p providers /\ passesAll ps policy p).
Proof.
  intros Hknown.
  assert (Hc : Forall consistent (system.filters ps)).
  { rewrite !List.Forall_forall in *. intros f Hf. now apply config_Filters_consistent, Hknown. }
  assert (Hpass : forall p, system.filterWorker ps policy p = true <-> passesAll ps policy p).
  { intros p. unfold system.filterWorker, passesAll. apply forallb_forall. }
  split; [| split; [| split; [| split; [| split]]]].
  - intros f l Hf. rewrite List.Forall_forall in Hc. now apply Hc.
  - unfold system.sequentialFilterProviders. now apply sequential_is_filter.
  - reflexivity.
  - now apply FilterProviders_eq.
  - exact Hpass.
  - intros out Hrun. apply FilterProviders_may_perm in Hrun.
    rewrite FilterProviders_eq in Hrun by assumption.
    split; [exact Hrun |]. intros p. rewrite <- Hpass, <- filter_In.
    split; apply Permutation_in; [exact Hrun | now apply Permutation_sym].
Qed.

(** The mock system is built from the configured filters. *)
Lemma FilterProviders_conjunctive_witness :
  Forall (fun f => In f config.Filters) (system.filters (config.Init true))
  /\ forall out,
      system.FilterProviders_may (config.Init true) mock.Providers mock.ConsumerPolicy out ->
      forall p, In p out <-> In p mock.Providers /\ passesAll (config.Init true) mock.ConsumerPolicy p.
Proof.
  assert (H : Forall (fun f => In f config.Filters) (system.filters (config.Init true))).
  { apply List.Forall_forall. intros f Hf. exact Hf. }
  split; [exact H |].
  intros out Hrun.
  apply (FilterProviders_conjunctive (config.Init true) mock.Providers mock.ConsumerPolicy H).
  exact Hrun.
Defined.

(** ** Location matching *)

Lemma EqualFold_refl s : score.EqualFold s s = true.
Proof.
  induction s as [| a s IH]; simpl; [reflexivity |].
  now rewrite Ascii.eqb_refl, IH.
Qed.

(** C2 does not hold: a provider whose location is the required one in
    lower case matches it under case folding, yet the location filter
    rejects it, on its own and inside [FilterProviders]. *)
Lemma LocationFilter_rejects_other_case :
  score.EqualFold (pairing.Location inputs.lowerCaseWest)
                  (pairing.RequiredLocation mock.ConsumerPolicy) = true
  /\ filter.ApplySingle filter.LocationFilter inputs.lowerCaseWest mock.ConsumerPolicy = false
  /\ filter.Apply filter.LocationFilter [inputs.lowerCaseWest] mock.ConsumerPolicy = []
  /\ system.FilterProviders (config.Init true) [inputs.lowerCaseWest] mock.ConsumerPolicy = []
  /\ ~ (filter.ApplySingle filter.LocationFilter inputs.lowerCaseWest mock.ConsumerPolicy = true
        <-> score.EqualFold (pairing.Location inputs.lowerCaseWest)
                            (pairing.RequiredLocation mock.ConsumerPolicy) = true).
Proof.
  repeat split; try reflexivity.
  intros [_ H]. specialize (H eq_refl). discriminate H.
Qed.

(** C2, amended: the location filter accepts a provider iff its location is
    the required location character for character; [Apply] keeps exactly
    those providers; an accepted provider also matches under case folding,
    but a provider that matches only under case folding is rejected. *)
Theorem LocationFilter_exact_match provider policy :
  (filter.ApplySingle filter.LocationFilter provider policy = true
   <-> pairing.Location provider = pairing.RequiredLocation policy)
  /\ (forall l p, In p (filter.Apply filter.LocationFilter l policy)
                  <-> In p l /\ pairing.Location p = pairing.RequiredLocation policy)
  /\ (filter.ApplySingle filter.LocationFilter provider policy = true ->
      score.EqualFold (pairing.Location provider) (pairing.RequiredLocation policy) = true)
  /\ (pairing.Location provider <> pairing.RequiredLocation policy ->
      filter.ApplySingle filter.LocationFilter provider policy = false).
Proof.
  simpl. split; [| split; [| split]].
  - apply String.eqb_eq.
  - intros l p. rewrite filter_In, String.eqb_eq. reflexivity.
  - intros H. apply String.eqb_eq in H. rewrite H. apply EqualFold_refl.
  - intros H. now apply String.eqb_neq.
Qed.

(** ** Sums of rationals *)

(** A running total kept by [+=] is the sum of what was added. *)
Lemma fold_left_total {A} (f : A -> Q) (l : list A) (t : Q) :
  fold_left (fun acc a => acc + f a) l t == t + Qsum (map f l).
Proof.
  revert t. induction l as [| a l IH]; intros t; simpl.
  - ring.
  - rewrite IH. ring.
Qed.

(** ** The scoring loop of [rankWorker] *)

Section ScoringLoop.

Variable p : pairing.Provider.
Variable policy : pairing.ConsumerPolicy.
Variable ctx : score.PreScoreContext.

Lemma scoreAll_scoreFrom scorers :
  system.scoreAll scorers p policy ctx = scoreFrom p policy ctx (∅, 0) scorers.
Proof. reflexivity. Qed.

Lemma scoreFrom_cons acc s scorers :
  scoreFrom p policy ctx acc (s :: scorers)
  = scoreFrom p policy ctx (<[score.Name s := score.Score s p policy ctx]> (fst acc),
               snd acc + score.Score s p policy ctx) scorers.
Proof. reflexivity. Qed.

Lemma scoreFrom_total scorers : forall acc,
  snd (scoreFrom p policy ctx acc scorers) == snd acc + Qsum (rawOutputs scorers p policy ctx).
Proof.
  induction scorers as [| s scorers IH]; intros acc.
  - simpl. ring.
  - rewrite scoreFrom_cons, IH. simpl. ring.
Qed.

(** Every name met by the loop has an entry afterwards. *)
Lemma scoreFrom_has_entry scorers : forall acc k,
  is_Some (fst acc !! k) \/ In k (map score.Name scorers) ->
  is_Some (fst (scoreFrom p policy ctx acc scorers) !! k).
Proof.
  induction scorers as [| s scorers IH]; intros acc k H.
  - simpl in *. tauto.
  - rewrite scoreFrom_cons. apply IH. simpl in *.
    destruct (decide (score.Name s = k)) as [-> | Hne].
    + left. rewrite lookup_insert_eq. eauto.
    + rewrite lookup_insert_ne by assumption. tauto.
Qed.

(** Every entry is either an old one or the raw output of a scorer of that
    name. *)
Lemma scoreFrom_entry_origin scorers : forall acc k v,
  fst (scoreFrom p policy ctx acc scorers) !! k = Some v ->
  (fst acc !! k = Some v /\ ~ In k (map score.Name scorers))
  \/ exists s, In s scorers /\ score.Name s = k /\ v = score.Score s p policy ctx.
Proof.
  induction scorers as [| s scorers IH]; intros acc k v H.
  - simpl in *. left. tauto.
  - rewrite scoreFrom_cons in H. apply IH in H. simpl in H.
    destruct H as [[Hk Hnot] | (s' & Hin & Hname & Hv)].
    + destruct (decide (score.Name s = k)) as [Heq | Hne].
      * subst k. rewrite lookup_insert_eq in Hk. right. exists s.
        split; [now left |]. split; [reflexivity | congruence].
      * rewrite lookup_insert_ne in Hk by assumption. left. split; [exact Hk |].
        simpl. tauto.
    + right. exists s'. split; [now right | tauto].
Qed.

(** With pairwise distinct names, each scorer finds its own output. *)
Lemma scoreFrom_own_entry scorers : forall acc s,
  NoDup (map score.Name scorers) -> In s scorers ->
  fst (scoreFrom p policy ctx acc scorers) !! score.Name s = Some (score.Score s p policy ctx).
Proof.
  induction scorers as [| s0 scorers IH]; intros acc s Hnd Hin; [destruct Hin |].
  rewrite scoreFrom_cons. simpl in Hnd. apply NoDup_cons in Hnd as [Hfresh Hnd].
  destruct Hin as [-> | Hin].
  - destruct (fst (scoreFrom p policy ctx (<[score.Name s := score.Score s p policy ctx]> (fst acc),
                              snd acc + score.Score s p policy ctx) scorers)
                !! score.Name s) as [v |] eqn:E.
    + apply scoreFrom_entry_origin in E. simpl in E.
      destruct E as [[Hk _] | (s' & Hin' & Hname & _)].
      * rewrite lookup_insert_eq in Hk. congruence.
      * exfalso. apply Hfresh. apply list_elem_of_In. rewrite <- Hname.
        now apply in_map.
    + exfalso. assert (Hs : is_Some (@None Q)); [| destruct Hs; discriminate].
      rewrite <- E. apply scoreFrom_has_entry. left. simpl.
      rewrite lookup_insert_eq. eauto.
  - now apply IH.
Qed.

Lemma scoreFrom_size scorers : forall acc,
  NoDup (map score.Name scorers) ->
  (forall k, In k (map score.Name scorers) -> fst acc !! k = None) ->
  size (fst (scoreFrom p policy ctx acc scorers)) = (size (fst acc) + length scorers)%nat.
Proof.
  induction scorers as [| s scorers IH]; intros acc Hnd Hfresh.
  - simpl. lia.
  - rewrite scoreFrom_cons. simpl in Hnd. apply NoDup_cons in Hnd as [Hs Hnd].
    rewrite IH; simpl.
    + rewrite map_size_insert_None; [lia |]. apply Hfresh. now left.
    + exact Hnd.
    + intros k Hk. rewrite lookup_insert_ne.
      * apply Hfresh. now right.
      * intros <-. apply Hs. now apply list_elem_of_In.
Qed.

End ScoringLoop.

(** ** The weighted sum *)

Section WeightedSum.

Variable weights : gmap string Q.

Lemma weightedSumOver_from entries : forall t,
  fold_left (fun weightedSum entry =>
               match weights !! fst entry with
               | Some weight => weightedSum + snd entry * weight
               | None => weightedSum
               end) entries t
  == t + Qsum (map (entryContribution weights) entries).
Proof.
  induction entries as [| e entries IH]; intros t; simpl.
  - ring.
  - rewrite IH. unfold entryContribution at 2, contribution.
    destruct (weights !! fst e); ring.
Qed.

Lemma weightedSumOver_sum entries :
  system.weightedSumOver entries weights == Qsum (map (entryContribution weights) entries).
Proof.
  unfold system.weightedSumOver. rewrite weightedSumOver_from. ring.
Qed.

End WeightedSum.

(** ** The combiner *)

Lemma weighted_branch (weights : gmap string Q) n components total :
  weights <> ∅ ->
  system.finalScoreOf n components total weights
  = system.weightedSumOver (map_to_list components) weights.
Proof.
  intros Hne. unfold system.finalScoreOf.
  apply map_size_non_empty_iff in Hne.
  destruct (0 <? size weights)%nat eqn:E; [reflexivity |].
  apply Nat.ltb_ge in E. lia.
Qed.

Lemma average_branch (weights : gmap string Q) n components total :
  weights = ∅ ->
  system.finalScoreOf n components total weights
  = if (0 <? n)%nat then total / inject_Z (Z.of_nat n) else 0.
Proof.
  intros ->. unfold system.finalScoreOf. now rewrite map_size_empty.
Qed.

(** Every record of a run of [RankProviders] is the record [rankWorker]
    builds for its provider under the context of the whole list. *)
Lemma RankProviders_may_in ps providers policy out sc :
  system.RankProviders_may ps providers policy out -> In sc out ->
  In (pairing.Provider_ sc) providers
  /\ sc = system.rankWorker ps policy (system.preScoreCtxOf providers) (pairing.Provider_ sc).
Proof.
  unfold system.RankProviders_may, system.RankProviders. intros Hperm Hin.
  apply (Permutation_in _ Hperm) in Hin.
  destruct (length providers =? 0)%nat; [destruct Hin |].
  apply in_map_iff in Hin as (p & <- & Hp). simpl. split; [exact Hp | reflexivity].
Qed.

Lemma RankProviders_may_run ps providers policy :
  system.RankProviders_may ps providers policy (system.RankProviders ps providers policy).
Proof. unfold system.RankProviders_may. reflexivity. Qed.

Lemma RankProviders_map ps providers policy :
  system.RankProviders ps providers policy
  = map (system.rankWorker ps policy (system.preScoreCtxOf providers)) providers.
Proof.
  unfold system.RankProviders. destruct providers; reflexivity.
Qed.

(** C5: with an empty (or nil) weight mapping the final score of a record
    is the arithmetic mean of the raw outputs of the configured scorers,
    and 0 when no scorer is configured; this holds for the record built by
    [rankWorker] under any context and for every record of every run of
    [RankProviders]. *)
Theorem average_mode_is_mean ps policy :
  pairing.Weights policy = ∅ ->
  (forall ctx p,
     pairing.Score (system.rankWorker ps policy ctx p)
     == arithmeticMean (rawOutputs (system.scorers ps) p policy ctx))
  /\ (system.scorers ps = [] ->
      forall ctx p, pairing.Score (system.rankWorker ps policy ctx p) == 0)
  /\ (forall providers out sc,
        system.RankProviders_may ps providers policy out -> In sc out ->
        pairing.Score sc
        == arithmeticMean (rawOutputs (system.scorers ps) (pairing.Provider_ sc) policy
                                      (system.preScoreCtxOf providers))).
Proof.
  intros Hw.
  assert (Hmean : forall ctx p,
             pairing.Score (system.rankWorker ps policy ctx p)
             == arithmeticMean (rawOutputs (system.scorers ps) p policy ctx)).
  { intros ctx p. unfold system.rankWorker. simpl.
    rewrite average_branch by assumption.
    rewrite scoreAll_scoreFrom.
    destruct (system.scorers ps) as [| s scorers] eqn:E; [reflexivity |].
    cbn [length Nat.ltb Nat.leb].
    rewrite scoreFrom_total. unfold arithmeticMean.
    replace (length (rawOutputs (s :: scorers) p policy ctx)) with (S (length scorers))
      by (unfold rawOutputs; now rewrite length_map).
    cbn [rawOutputs map snd]. rewrite Qplus_0_l. reflexivity. }
  split; [exact Hmean |]. split.
  - intros Hnone ctx p. rewrite Hmean, Hnone. reflexivity.
  - intros providers out sc Hrun Hin.
    destruct (RankProviders_may_in _ _ _ _ _ Hrun Hin) as [_ Hsc].
    rewrite Hsc at 1. apply Hmean.
Qed.

(** Provider 5 under the policy without weights. *)
Lemma average_mode_is_mean_witness :
  pairing.Weights inputs.noWeights = ∅
  /\ pairing.Score (system.rankWorker (config.Init true) inputs.noWeights
                                      (system.preScoreCtxOf mock.Providers) mock.provider5)
     == arithmeticMean (rawOutputs config.Scorers mock.provider5 inputs.noWeights
                                   (system.preScoreCtxOf mock.Providers)).
Proof.
  split; [reflexivity |].
  apply (average_mode_is_mean (config.Init true) inputs.noWeights eq_refl).
Defined.

(** ** The weighted mode in any arithmetic *)

Section AnyArithmetic.

Context {A : Type} (ar : arith.Arith A) (weights : gmap string A).

Lemma weightedSumOver_from_state entries : forall t,
  fold_left (fun weightedSum entry =>
               match weights !! fst entry with
               | Some weight => arith.add ar weightedSum (arith.mul ar (snd entry) weight)
               | None => weightedSum
               end) entries t
  = fold_left (arith.add ar) (arith.presentProducts ar weights entries) t.
Proof.
  induction entries as [| e entries IH]; intros t; simpl.
  - reflexivity.
  - rewrite fold_left_app, IH. destruct (weights !! fst e); reflexivity.
Qed.

Lemma presentProducts_filter entries :
  arith.presentProducts ar weights (List.filter (arith.present weights) entries)
  = arith.presentProducts ar weights entries.
Proof.
  induction entries as [| e entries IH]; simpl; [reflexivity |].
  unfold arith.present at 1. destruct (weights !! fst e) eqn:E; simpl.
  - now rewrite E, IH.
  - exact IH.
Qed.

Lemma presentProducts_differ entries entries' :
  arith.differOnlyOnAbsent weights entries entries' ->
  arith.presentProducts ar weights entries = arith.presentProducts ar weights entries'.
Proof.
  induction 1 as [| e e' entries entries' [Hname Hval] _ IH]; simpl; [reflexivity |].
  rewrite <- Hname, IH. unfold arith.present in Hval.
  destruct (weights !! fst e); [now rewrite Hval | reflexivity].
Qed.

End AnyArithmetic.

(** The weighted loop of the exact embedding is the loop of module
    [arith] at the exact arithmetic. *)
Lemma weightedSumOver_exact entries (weights : gmap string Q) :
  system.weightedSumOver entries weights = arith.weightedSumOver arith.exact entries weights.
Proof. reflexivity. Qed.

(** C6 does not hold: in binary64 the weighted sum of the components of
    provider 5 under the mock weights depends on the order in which the
    components are visited, so two runs on the same input, which differ in
    nothing, can return different final scores. *)
Lemma weighted_score_depends_on_visiting_order :
  Permutation inputs.visit5 inputs.visit5'
  /\ PrimFloat.ltb
       (arith.weightedSumOver arith.binary64 inputs.visit5 inputs.mockWeights64)
       (arith.weightedSumOver arith.binary64 inputs.visit5' inputs.mockWeights64) = true
  /\ arith.weightedSumOver arith.binary64 inputs.visit5 inputs.mockWeights64
     <> arith.weightedSumOver arith.binary64 inputs.visit5' inputs.mockWeights64.
Proof.
  assert (Hlt : PrimFloat.ltb
                  (arith.weightedSumOver arith.binary64 inputs.visit5 inputs.mockWeights64)
                  (arith.weightedSumOver arith.binary64 inputs.visit5' inputs.mockWeights64)
                = true) by (vm_compute; reflexivity).
  split; [| split; [exact Hlt |]].
  - unfold inputs.visit5, inputs.visit5'. apply perm_skip, perm_swap.
  - intros Heq. rewrite Heq in Hlt. vm_compute in Hlt. discriminate Hlt.
Qed.

(** C6, amended: in any arithmetic, in particular in binary64, and for
    every weight mapping, the weighted loop returns the sum, accumulated
    from zero in visiting order, of output times weight over the visited
    entries whose name is in the mapping; an entry whose name is absent is
    skipped, so removing the absent entries, or changing only the values
    stored under absent names while the names are visited in the same
    order, leaves the result the very same value; and with a non-empty
    mapping the final score of the exact embedding is this loop on the
    [Components] of the record. *)
Theorem weighted_mode_skips_absent {A : Type} (ar : arith.Arith A) (weights : gmap string A) :
  (forall entries,
     arith.weightedSumOver ar entries weights
     = fold_left (arith.add ar) (arith.presentProducts ar weights entries) (arith.zero ar))
  /\ (forall entries,
        arith.weightedSumOver ar (List.filter (arith.present weights) entries) weights
        = arith.weightedSumOver ar entries weights)
  /\ (forall entries entries',
        arith.differOnlyOnAbsent weights entries entries' ->
        arith.weightedSumOver ar entries weights
        = arith.weightedSumOver ar entries' weights)
  /\ (forall ps policy ctx p,
        pairing.Weights policy <> ∅ ->
        pairing.Score (system.rankWorker ps policy ctx p)
        = arith.weightedSumOver arith.exact
            (map_to_list (pairing.Components (system.rankWorker ps policy ctx p)))
            (pairing.Weights policy)).
Proof.
  assert (Hsum : forall entries,
            arith.weightedSumOver ar entries weights
            = fold_left (arith.add ar) (arith.presentProducts ar weights entries)
                        (arith.zero ar)).
  { intros entries. apply weightedSumOver_from_state. }
  split; [exact Hsum |]. split; [| split].
  - intros entries. now rewrite !Hsum, presentProducts_filter.
  - intros entries entries' Hdiff. now rewrite !Hsum, (presentProducts_differ _ _ _ _ Hdiff).
  - intros ps policy ctx p Hne. unfold system.rankWorker. cbn [pairing.Score pairing.Components].
    now rewrite weighted_branch.
Qed.

(** ** The shape of the ranking *)

(** C10: every run of [RankProviders] returns, up to order, the records
    [rankWorker] builds for the input providers, one per provider, so the
    providers of the output are a rearrangement of the input and the
    lengths agree; the [Components] of each record have an entry under the
    name of every configured scorer and under no other key, each entry is
    the raw output of a scorer of that name for the record's provider, and
    when the names are pairwise distinct there are as many entries as
    scorers and each scorer finds its own output under its name. *)
Theorem RankProviders_one_record_per_provider ps providers policy out :
  system.RankProviders_may ps providers policy out ->
  Permutation out (map (system.rankWorker ps policy (system.preScoreCtxOf providers)) providers)
  /\ Permutation (map pairing.Provider_ out) providers
  /\ length out = length providers
  /\ forall sc, In sc out ->
       (forall s, In s (system.scorers ps) ->
                  is_Some (pairing.Components sc !! score.Name s))
       /\ (forall k v, pairing.Components sc !! k = Some v ->
             exists s, In s (system.scorers ps) /\ score.Name s = k
                       /\ v = score.Score s (pairing.Provider_ sc) policy
                                          (system.preScoreCtxOf providers))
       /\ (NoDup (map score.Name (system.scorers ps)) ->
           size (pairing.Components sc) = length (system.scorers ps)
           /\ forall s, In s (system.scorers ps) ->
                pairing.Components sc !! score.Name s
                = Some (score.Score s (pairing.Provider_ sc) policy
                                    (system.preScoreCtxOf providers))).
Proof.
  intros Hrun.
  assert (Hperm : Permutation out
            (map (system.rankWorker ps policy (system.preScoreCtxOf providers)) providers)).
  { unfold system.RankProviders_may in Hrun. now rewrite RankProviders_map in Hrun. }
  split; [exact Hperm |]. split; [| split].
  - rewrite (Permutation_map pairing.Provider_ Hperm), map_map. simpl.
    now rewrite map_id.
  - rewrite (Permutation_length Hperm). apply length_map.
  - intros sc Hin. destruct (RankProviders_may_in _ _ _ _ _ Hrun Hin) as [_ Hsc].
    set (p := pairing.Provider_ sc) in *. rewrite Hsc.
    unfold system.rankWorker. cbn [pairing.Components pairing.Provider_].
    rewrite scoreAll_scoreFrom. split; [| split].
    + intros s Hs. apply scoreFrom_has_entry. right. now apply in_map.
    + intros k v Hk. apply scoreFrom_entry_origin in Hk.
      destruct Hk as [[Hk _] | Hk]; [| exact Hk].
      simpl in Hk. rewrite lookup_empty in Hk. discriminate.
    + intros Hnd. split.
      * rewrite scoreFrom_size; [simpl; now rewrite map_size_empty | exact Hnd |].
        intros k _. apply lookup_empty.
      * intros s Hs. now apply scoreFrom_own_entry.
Qed.

(** The run of [RankProviders] on the mock pool. *)
Lemma RankProviders_one_record_per_provider_witness :
  system.RankProviders_may (config.Init true) mock.Providers mock.ConsumerPolicy
                           (system.RankProviders (config.Init true) mock.Providers
                                                 mock.ConsumerPolicy)
  /\ length (system.RankProviders (config.Init true) mock.Providers mock.ConsumerPolicy)
     = length mock.Providers.
Proof.
  split; [apply RankProviders_may_run |].
  apply (RankProviders_one_record_per_provider (config.Init true) mock.Providers
           mock.ConsumerPolicy _ (RankProviders_may_run _ _ _)).
Defined.

(** ** Sorting and selection *)

Lemma less_false_iff a b :
  system.less b a = false <-> pairing.Score b <= pairing.Score a.
Proof.
  unfold system.less, utils.Qgtb. rewrite negb_false_iff. apply Qle_bool_iff.
Qed.

Lemma less_true_iff a b :
  system.less a b = true <-> pairing.Score b < pairing.Score a.
Proof.
  unfold system.less, utils.Qgtb. rewrite negb_true_iff.
  split; intros H.
  - apply Qnot_le_lt. intros Hle. apply Qle_bool_iff in Hle. congruence.
  - destruct (Qle_bool (pairing.Score a) (pairing.Score b)) eqn:E; [| reflexivity].
    apply Qle_bool_iff in E. exfalso. apply (Qlt_not_le _ _ H E).
Qed.

Lemma insertSorted_perm x l : Permutation (system.insertSorted x l) (x :: l).
Proof.
  induction l as [| y l IH]; simpl.
  - reflexivity.
  - destruct (system.less x y); [reflexivity |].
    rewrite IH. apply perm_swap.
Qed.

Lemma sortSlice_perm l : Permutation (system.sortSlice l) l.
Proof.
  induction l as [| x l IH]; simpl.
  - reflexivity.
  - rewrite insertSorted_perm. now apply perm_skip.
Qed.

Lemma insertSorted_sorted x l :
  StronglySorted (fun a b => system.less b a = false) l ->
  StronglySorted (fun a b => system.less b a = false) (system.insertSorted x l).
Proof.
  induction 1 as [| y l Hs IH Hy]; simpl.
  - constructor; constructor.
  - destruct (system.less x y) eqn:E.
    + constructor; [now constructor |].
      apply less_true_iff in E.
      constructor.
      * apply less_false_iff. now apply Qlt_le_weak.
      * rewrite List.Forall_forall in Hy |- *. intros z Hz.
        apply less_false_iff. specialize (Hy z Hz). apply less_false_iff in Hy.
        apply Qlt_le_weak in E. now apply (Qle_trans _ (pairing.Score y)).
    + constructor; [exact IH |].
      rewrite List.Forall_forall in Hy |- *. intros z Hz.
      apply (Permutation_in _ (insertSorted_perm x l)) in Hz.
      destruct Hz as [<- | Hz]; [exact E | now apply Hy].
Qed.

Lemma sortSlice_sorted l :
  StronglySorted (fun a b => system.less b a = false) (system.sortSlice l).
Proof.
  induction l as [| x l IH]; simpl.
  - constructor.
  - now apply insertSorted_sorted.
Qed.

Lemma sortSlice_may_run l : system.sortSlice_may l (system.sortSlice l).
Proof. split; [apply sortSlice_perm | apply sortSlice_sorted]. Qed.

(** A list in strictly decreasing score order is the only sorted
    rearrangement of itself. *)
Lemma sorted_rearrangement_unique l : forall out,
  StronglySorted (fun a b => system.less a b = true) l ->
  system.sortSlice_may l out -> out = l.
Proof.
  induction l as [| x l IH]; intros out Hstrict [Hperm Hsorted].
  - now apply Permutation_nil.
  - destruct out as [| y out]; [apply Permutation_nil in Hperm; discriminate |].
    inversion Hstrict as [| ? ? Hstrict' Hx]; subst.
    inversion Hsorted as [| ? ? Hsorted' Hy]; subst.
    assert (Hyx : y = x).
    { assert (Hin : In y (x :: l)) by (apply (Permutation_in _ Hperm); now left).
      destruct Hin as [<- | Hin]; [reflexivity |].
      assert (Hin' : In x (y :: out)).
      { apply (Permutation_in _ (Permutation_sym Hperm)). now left. }
      destruct Hin' as [<- | Hin']; [reflexivity |].
      rewrite List.Forall_forall in Hx, Hy.
      specialize (Hx y Hin). specialize (Hy x Hin'). congruence. }
    subst y. f_equal. apply IH; [exact Hstrict' |].
    split; [now apply Permutation_cons_inv in Hperm | exact Hsorted'].
Qed.

Lemma selectTop_length scored :
  length (system.selectTop scored) = Nat.min 5 (length scored).
Proof.
  unfold system.selectTop, utils.Min, system.topNProviders.
  rewrite length_map, length_firstn.
  destruct (5 <? Z.of_nat (length scored))%Z eqn:E.
  - apply Z.ltb_lt in E. change (Z.to_nat 5) with 5%nat. lia.
  - apply Z.ltb_ge in E. rewrite Nat2Z.id. lia.
Qed.

(** ** The orchestrator *)

Create HintDb runs.
#[local] Hint Resolve FilterProviders_may_run RankProviders_may_run sortSlice_may_run : runs.

(** The function [GetPairingList] computes one of the runs. *)
Lemma GetPairingList_may_run ps providers policy :
  system.GetPairingList_may ps providers policy (system.GetPairingList ps providers policy).
Proof.
  unfold system.GetPairingList.
  destruct (length (system.FilterProviders ps providers policy) =? 0)%nat eqn:E.
  - apply Nat.eqb_eq in E. destruct (system.strictMode ps) eqn:Es.
    + eapply system.run_strict; eauto with runs.
    + eapply system.run_lenient; eauto with runs.
  - apply Nat.eqb_neq in E. eapply system.run_ranked; eauto with runs.
Qed.

Lemma FilterProviders_may_length ps providers policy out :
  system.FilterProviders_may ps providers policy out ->
  length out = length (system.FilterProviders ps providers policy).
Proof. intros H. apply Permutation_length. now apply FilterProviders_may_perm. Qed.

Lemma RankProviders_may_length ps providers policy out :
  system.RankProviders_may ps providers policy out -> length out = length providers.
Proof.
  unfold system.RankProviders_may. intros H. rewrite (Permutation_length H).
  rewrite RankProviders_map. apply length_map.
Qed.

(** What a run of [GetPairingList] returns, by the number of survivors. *)
Lemma GetPairingList_may_cases ps providers policy res :
  system.GetPairingList_may ps providers policy res ->
  (length (system.FilterProviders ps providers policy) = 0%nat
   /\ res = ([], if system.strictMode ps then Some system.errNoMatch else None))
  \/ (length (system.FilterProviders ps providers policy) <> 0%nat
      /\ snd res = None
      /\ length (fst res) = Nat.min 5 (length (system.FilterProviders ps providers policy))).
Proof.
  intros Hrun. destruct Hrun as [filtered Hf Hlen Hs | filtered Hf Hlen Hs
                                | filtered scored sorted Hf Hlen Hr [Hperm _]].
  - left. rewrite <- (FilterProviders_may_length _ _ _ _ Hf), Hs. tauto.
  - left. rewrite <- (FilterProviders_may_length _ _ _ _ Hf), Hs. tauto.
  - right. rewrite <- (FilterProviders_may_length _ _ _ _ Hf).
    split; [exact Hlen |]. split; [reflexivity |]. simpl.
    rewrite selectTop_length, (Permutation_length Hperm).
    now rewrite (RankProviders_may_length _ _ _ _ Hr).
Qed.

(** C4: a run of [GetPairingList] returns an error iff the system is in
    strict mode and the filter stage leaves no provider; when no provider
    is left, the strict system returns the error and the lenient system,
    on the same input, the empty list with a nil error; the three
    operations always have a run ([FilterProviders] and [RankProviders]
    return a list and have no error result), and [RankProviders] on the
    empty list returns the empty list. *)
Theorem GetPairingList_error_iff_strict_and_empty fs scs providers policy :
  (forall strict res,
     system.GetPairingList_may (system.NewPairingSystem fs scs strict) providers policy res ->
     (snd res <> None
      <-> strict = true
          /\ system.FilterProviders (system.NewPairingSystem fs scs strict) providers policy = []))
  /\ (system.FilterProviders (system.NewPairingSystem fs scs true) providers policy = [] ->
      (forall res,
         system.GetPairingList_may (system.NewPairingSystem fs scs true) providers policy res ->
         res = ([], Some system.errNoMatch))
      /\ (forall res,
            system.GetPairingList_may (system.NewPairingSystem fs scs false) providers policy res ->
            res = ([], None)))
  /\ (forall strict,
        system.GetPairingList_may (system.NewPairingSystem fs scs strict) providers policy
          (system.GetPairingList (system.NewPairingSystem fs scs strict) providers policy)
        /\ system.FilterProviders_may (system.NewPairingSystem fs scs strict) providers policy
             (system.FilterProviders (system.NewPairingSystem fs scs strict) providers policy)
        /\ system.RankProviders_may (system.NewPairingSystem fs scs strict) providers policy
             (system.RankProviders (system.NewPairingSystem fs scs strict) providers policy))
  /\ (forall strict,
        system.RankProviders (system.NewPairingSystem fs scs strict) [] policy = []
        /\ forall out,
            system.RankProviders_may (system.NewPairingSystem fs scs strict) [] policy out ->
            out = []).
Proof.
  split; [| split; [| split]].
  - intros strict res Hrun. apply GetPairingList_may_cases in Hrun.
    cbn [system.strictMode system.NewPairingSystem] in Hrun.
    destruct Hrun as [[Hlen ->] | (Hlen & Herr & _)].
    + apply length_zero_iff_nil in Hlen. destruct strict; simpl; split.
      * intros _. split; [reflexivity | exact Hlen].
      * intros _. discriminate.
      * intros H. now contradiction H.
      * intros [H _]. discriminate H.
    + split.
      * intros H. now contradiction H.
      * intros [_ H]. rewrite H in Hlen. now contradiction Hlen.
  - intros Hempty. split; intros res Hrun; apply GetPairingList_may_cases in Hrun;
      destruct Hrun as [[_ ->] | (Hlen & _)]; try reflexivity;
      exfalso; apply Hlen;
      change (length (system.FilterProviders (system.NewPairingSystem fs scs true)
                                             providers policy) = 0%nat);
      now rewrite Hempty.
  - intros strict. split; [apply GetPairingList_may_run |].
    split; [apply FilterProviders_may_run | apply RankProviders_may_run].
  - intros strict. split; [reflexivity |].
    intros out Hrun. unfold system.RankProviders_may in Hrun. simpl in Hrun.
    now apply Permutation_nil, Permutation_sym.
Qed.

(** Scenario C: no mock provider is in "Antarctica". *)
Example scenarioC_strict_and_lenient :
  system.GetPairingList (config.Init true) mock.Providers inputs.antarctica
  = ([], Some system.errNoMatch)
  /\ system.GetPairingList (config.Init false) mock.Providers inputs.antarctica = ([], None).
Proof. split; reflexivity. Qed.

(** The loop of step 4 from index [i]: it returns the next [remaining]
    providers when the slice holds that many, and panics otherwise. *)
Lemma selectLoop_spec scored : forall remaining i topProviders,
  (i <= length scored)%nat ->
  system.selectLoop scored i remaining topProviders
  = if (i + remaining <=? length scored)%nat
    then Some (topProviders ++ map pairing.Provider_ (firstn remaining (skipn i scored)))%list
    else None.
Proof.
  induction remaining as [| remaining IH]; intros i topProviders Hi;
    cbn [system.selectLoop].
  - cbn [firstn map]. rewrite app_nil_r.
    destruct (i + 0 <=? length scored)%nat eqn:E; [reflexivity |].
    apply Nat.leb_gt in E. lia.
  - destruct (scored !! i) as [sc |] eqn:Hsc.
    + assert (Hlt : (i < length scored)%nat) by (apply lookup_lt_is_Some; eauto).
      rewrite IH by lia.
      assert (Hskip : skipn i scored = sc :: skipn (S i) scored).
      { now apply drop_S. }
      rewrite Hskip. cbn [firstn map]. rewrite <- app_assoc. cbn [app].
      destruct (S i + remaining <=? length scored)%nat eqn:E1;
        destruct (i + S remaining <=? length scored)%nat eqn:E2;
        try reflexivity;
        [apply Nat.leb_le in E1; apply Nat.leb_gt in E2 | apply Nat.leb_gt in E1; apply Nat.leb_le in E2];
        lia.
    + apply lookup_ge_None in Hsc.
      destruct (i + S remaining <=? length scored)%nat eqn:E; [| reflexivity].
      apply Nat.leb_le in E. lia.
Qed.

(** With the count that [utils.Min] computes the loop never reads past the
    end of the slice, and it selects what [selectTop] selects. *)
Lemma selectTopIndexed_selectTop scored :
  system.selectTopIndexed scored = Some (system.selectTop scored).
Proof.
  unfold system.selectTopIndexed, system.selectTop. rewrite selectLoop_spec by lia. simpl.
  destruct (Z.to_nat (utils.Min system.topNProviders (Z.of_nat (length scored)))
            <=? length scored)%nat eqn:E; [reflexivity |].
  apply Nat.leb_gt in E. unfold utils.Min, system.topNProviders in E.
  destruct (5 <? Z.of_nat (length scored))%Z eqn:E5;
    [apply Z.ltb_lt in E5 | apply Z.ltb_ge in E5]; lia.
Qed.

Lemma Min_is_min a b : utils.Min a b = Z.min a b.
Proof.
  unfold utils.Min. destruct (a <? b)%Z eqn:E;
    [apply Z.ltb_lt in E | apply Z.ltb_ge in E]; lia.
Qed.

(** C8: a run of [GetPairingList] that returns no error returns as many
    providers as [utils.Min] computes from 5 and the number of providers
    left by the filter stage, which is the smaller of the two; when a
    provider is left, the run returns no error and its result is what the
    selection loop of step 4 builds by reading [scored[i]] for every
    [i] below that count, never past the end of the sorted records; an
    error is returned only when no provider is left and the system is in
    strict mode, so fewer than 5 survivors give exactly that many results
    and not an error. *)
Theorem GetPairingList_length_is_min ps providers policy res :
  system.GetPairingList_may ps providers policy res ->
  (snd res = None ->
   length (fst res)
   = Z.to_nat (utils.Min system.topNProviders
                         (Z.of_nat (length (system.FilterProviders ps providers policy))))
   /\ length (fst res) = Nat.min 5 (length (system.FilterProviders ps providers policy)))
  /\ (snd res <> None ->
      length (system.FilterProviders ps providers policy) = 0%nat
      /\ system.strictMode ps = true)
  /\ ((0 < length (system.FilterProviders ps providers policy))%nat ->
      snd res = None
      /\ exists filtered sorted,
          system.FilterProviders_may ps providers policy filtered
          /\ Permutation sorted (system.RankProviders ps filtered policy)
          /\ length sorted = length (system.FilterProviders ps providers policy)
          /\ system.selectTopIndexed sorted = Some (fst res))
  /\ ((length (system.FilterProviders ps providers policy) < 5)%nat ->
      snd res = None ->
      length (fst res) = length (system.FilterProviders ps providers policy)).
Proof.
  intros Hrun.
  assert (Hcases := GetPairingList_may_cases _ _ _ _ Hrun).
  assert (Hmin : forall n : nat,
            Z.to_nat (utils.Min system.topNProviders (Z.of_nat n)) = Nat.min 5 n).
  { intros n. rewrite Min_is_min. unfold system.topNProviders. lia. }
  split; [| split; [| split]].
  - intros Hok. rewrite Hmin.
    destruct Hcases as [[Hlen ->] | (_ & _ & Hres)]; [now rewrite Hlen | tauto].
  - intros Herr. destruct Hcases as [[Hlen ->] | (_ & Hnone & _)]; [| contradiction].
    split; [exact Hlen |]. simpl in Herr. destruct (system.strictMode ps); congruence.
  - intros Hpos.
    destruct Hrun as [filtered Hf Hlen Hs | filtered Hf Hlen Hs
                     | filtered scored sorted Hf Hlen Hr [Hperm Hsorted]].
    + rewrite <- (FilterProviders_may_length _ _ _ _ Hf) in Hpos. lia.
    + rewrite <- (FilterProviders_may_length _ _ _ _ Hf) in Hpos. lia.
    + split; [reflexivity |]. exists filtered, sorted.
      split; [exact Hf |]. split; [now rewrite Hperm |]. split.
      * rewrite (Permutation_length Hperm), (RankProviders_may_length _ _ _ _ Hr).
        now apply FilterProviders_may_length.
      * simpl. apply selectTopIndexed_selectTop.
  - intros Hlt Hok.
    destruct Hcases as [[Hlen ->] | (_ & _ & Hres)]; [now rewrite Hlen | lia].
Qed.

(** The mock pool leaves three survivors and three results. *)
Lemma GetPairingList_length_is_min_witness :
  system.GetPairingList_may (config.Init true) mock.Providers mock.ConsumerPolicy
    (system.GetPairingList (config.Init true) mock.Providers mock.ConsumerPolicy)
  /\ length (fst (system.GetPairingList (config.Init true) mock.Providers mock.ConsumerPolicy))
     = length (system.FilterProviders (config.Init true) mock.Providers mock.ConsumerPolicy).
Proof.
  split; [apply GetPairingList_may_run |].
  apply (GetPairingList_length_is_min (config.Init true) mock.Providers mock.ConsumerPolicy _
           (GetPairingList_may_run _ _ _)).
  - vm_compute. lia.
  - reflexivity.
Defined.

(** ** Scenario A: the mock pool under the mock policy *)

Lemma FilterProviders_may_sequential ps providers policy out :
  (length providers <= system.parallelFilterThreshold)%nat ->
  system.FilterProviders_may ps providers policy out ->
  out = system.FilterProviders ps providers policy.
Proof.
  unfold system.FilterProviders_may, system.FilterProviders. intros Hle.
  destruct (_ =? _)%nat; [trivial |].
  apply Nat.leb_le in Hle. now rewrite Hle.
Qed.

Lemma scenarioA_filtered strict :
  system.FilterProviders (config.Init strict) mock.Providers mock.ConsumerPolicy
  = [mock.provider1; mock.provider5; mock.provider8].
Proof. destruct strict; vm_compute; reflexivity. Qed.

Lemma scenarioA_scores strict :
  map (fun sc => (pairing.ID (pairing.Provider_ sc), Qred (pairing.Score sc)))
      (system.RankProviders (config.Init strict)
                            [mock.provider1; mock.provider5; mock.provider8]
                            mock.ConsumerPolicy)
  = [("1", 7 # 15); ("5", 23 # 30); ("8", 22 # 25)].
Proof. destruct strict; vm_compute; reflexivity. Qed.

Lemma scenarioA_runs strict res :
  system.GetPairingList_may (config.Init strict) mock.Providers mock.ConsumerPolicy res ->
  res = ([mock.provider8; mock.provider5; mock.provider1], None).
Proof.
  intros Hrun.
  destruct Hrun as [filtered Hf Hlen Hs | filtered Hf Hlen Hs
                   | filtered scored sorted Hf Hlen Hr Hsort].
  - apply FilterProviders_may_sequential in Hf; [| vm_compute; lia].
    rewrite scenarioA_filtered in Hf. subst filtered. discriminate Hlen.
  - apply FilterProviders_may_sequential in Hf; [| vm_compute; lia].
    rewrite scenarioA_filtered in Hf. subst filtered. discriminate Hlen.
  - apply FilterProviders_may_sequential in Hf; [| vm_compute; lia].
    rewrite scenarioA_filtered in Hf. subst filtered.
    unfold system.RankProviders_may in Hr. rewrite RankProviders_map in Hr.
    set (ps := config.Init strict) in *.
    set (ctx := system.preScoreCtxOf [mock.provider1; mock.provider5; mock.provider8]) in *.
    cbn [map] in Hr.
    set (s1 := system.rankWorker ps mock.ConsumerPolicy ctx mock.provider1) in *.
    set (s5 := system.rankWorker ps mock.ConsumerPolicy ctx mock.provider5) in *.
    set (s8 := system.rankWorker ps mock.ConsumerPolicy ctx mock.provider8) in *.
    assert (Hout : sorted = [s8; s5; s1]).
    { apply sorted_rearrangement_unique.
      - assert (H85 : system.less s8 s5 = true) by (destruct strict; vm_compute; reflexivity).
        assert (H81 : system.less s8 s1 = true) by (destruct strict; vm_compute; reflexivity).
        assert (H51 : system.less s5 s1 = true) by (destruct strict; vm_compute; reflexivity).
        repeat constructor; assumption.
      - destruct Hsort as [Hperm Hsorted]. split; [| exact Hsorted].
        rewrite Hperm, Hr. rewrite (perm_swap s5 s1 [s8]).
        rewrite (Permutation_rev [s5; s1; s8]) at 1. simpl. apply perm_skip, perm_swap. }
    rewrite Hout. reflexivity.
Qed.

(** C1 does not hold: the run of [GetPairingList] on the mock pool and
    policy ranks provider 8 first, and no run ranks provider 5 first. *)
Lemma scenarioA_provider5_not_first :
  system.GetPairingList (config.Init true) mock.Providers mock.ConsumerPolicy
  = ([mock.provider8; mock.provider5; mock.provider1], None)
  /\ ~ (exists res rest,
          system.GetPairingList_may (config.Init true) mock.Providers mock.ConsumerPolicy res
          /\ fst res = mock.provider5 :: rest).
Proof.
  split.
  - apply (scenarioA_runs true), GetPairingList_may_run.
  - intros (res & rest & Hrun & Hfirst). apply (scenarioA_runs true) in Hrun. subst res.
    simpl in Hfirst. apply (f_equal (fun l => pairing.ID <$> head l)) in Hfirst.
    discriminate Hfirst.
Qed.

(** C1, amended: on the mock pool of 8 providers and the mock policy
    (weights 1/2, 3/10 and 1/5 for StakeScore, FeatureScore and
    LocationScore, FeeScore omitted) [FilterProviders] retains exactly the
    providers 1, 5 and 8, their final scores are 7/15, 23/30 and 22/25, and
    every run of [GetPairingList] returns the providers 8, 5, 1 in that
    order: provider 8 is ranked first and provider 5 second. *)
Theorem scenarioA_ranking strict :
  map pairing.ID
      (system.FilterProviders (config.Init strict) mock.Providers mock.ConsumerPolicy)
  = ["1"; "5"; "8"]
  /\ (forall out,
        system.FilterProviders_may (config.Init strict) mock.Providers mock.ConsumerPolicy out ->
        out = [mock.provider1; mock.provider5; mock.provider8])
  /\ map (fun sc => (pairing.ID (pairing.Provider_ sc), Qred (pairing.Score sc)))
         (system.RankProviders (config.Init strict)
            (system.FilterProviders (config.Init strict) mock.Providers mock.ConsumerPolicy)
            mock.ConsumerPolicy)
     = [("1", 7 # 15); ("5", 23 # 30); ("8", 22 # 25)]
  /\ (forall res,
        system.GetPairingList_may (config.Init strict) mock.Providers mock.ConsumerPolicy res ->
        res = ([mock.provider8; mock.provider5; mock.provider1], None))
  /\ map pairing.ID
         (fst (system.GetPairingList (config.Init strict) mock.Providers mock.ConsumerPolicy))
     = ["8"; "5"; "1"].
Proof.
  split; [| split; [| split; [| split]]].
  - now rewrite scenarioA_filtered.
  - intros out Hf. apply FilterProviders_may_sequential in Hf; [| vm_compute; lia].
    now rewrite scenarioA_filtered in Hf.
  - rewrite scenarioA_filtered. apply scenarioA_scores.
  - apply scenarioA_runs.
  - now rewrite (scenarioA_runs strict _ (GetPairingList_may_run _ _ _)).
Qed.

(** ** The normalization context *)

Lemma ComputeMaxStake_from providers : forall m,
  let r := fold_left (fun maxStake p =>
                        if (maxStake <? pairing.Stake p)%Z then pairing.Stake p else maxStake)
                     providers m in
  (m <= r)%Z /\ forall p, In p providers -> (pairing.Stake p <= r)%Z.
Proof.
  induction providers as [| q providers IH]; intros m; simpl.
  - split; [lia | tauto].
  - specialize (IH (if (m <? pairing.Stake q)%Z then pairing.Stake q else m)).
    simpl in IH. destruct IH as [Hm Hall].
    destruct (m <? pairing.Stake q)%Z eqn:E;
      [apply Z.ltb_lt in E | apply Z.ltb_ge in E];
      (split; [lia |]; intros p [<- | Hp]; [lia | now apply Hall]).
Qed.

Lemma ComputeMaxStake_bounds providers :
  (0 <= utils.ComputeMaxStake providers)%Z
  /\ forall p, In p providers -> (pairing.Stake p <= utils.ComputeMaxStake providers)%Z.
Proof. apply (ComputeMaxStake_from providers 0%Z). Qed.

Lemma MaxStake_positive providers :
  (0 < score.MaxStake (system.preScoreCtxOf providers))%Z.
Proof.
  simpl. destruct (ComputeMaxStake_bounds providers) as [H0 _].
  destruct (utils.ComputeMaxStake providers =? 0)%Z eqn:E; [lia |].
  apply Z.eqb_neq in E. lia.
Qed.

Lemma MaxStake_bounds providers p :
  In p providers -> (pairing.Stake p <= score.MaxStake (system.preScoreCtxOf providers))%Z.
Proof.
  intros Hp. simpl. destruct (ComputeMaxStake_bounds providers) as [_ Hall].
  specialize (Hall p Hp).
  destruct (utils.ComputeMaxStake providers =? 0)%Z eqn:E; [| exact Hall].
  apply Z.eqb_eq in E. lia.
Qed.

Lemma ComputeMaxStake_stakeless providers :
  Forall (fun p => pairing.Stake p = 0%Z) providers -> utils.ComputeMaxStake providers = 0%Z.
Proof.
  unfold utils.ComputeMaxStake. induction 1 as [| p providers Hp _ IH]; simpl.
  - reflexivity.
  - now rewrite Hp.
Qed.

Lemma Qgtb_true_iff a b : utils.Qgtb a b = true <-> b < a.
Proof.
  unfold utils.Qgtb. rewrite negb_true_iff. split; intros H.
  - apply Qnot_le_lt. intros Hle. apply Qle_bool_iff in Hle. congruence.
  - destruct (Qle_bool a b) eqn:E; [| reflexivity].
    apply Qle_bool_iff in E. exfalso. apply (Qlt_not_le _ _ H E).
Qed.

Lemma Qgtb_false_iff a b : utils.Qgtb a b = false <-> a <= b.
Proof. unfold utils.Qgtb. rewrite negb_false_iff. apply Qle_bool_iff. Qed.

Lemma maxFeeOf_from providers : forall m,
  let r := fold_left (fun maxFee p =>
                        if utils.Qgtb (pairing.Fee p) maxFee then pairing.Fee p else maxFee)
                     providers m in
  m <= r /\ forall p, In p providers -> pairing.Fee p <= r.
Proof.
  induction providers as [| q providers IH]; intros m; simpl.
  - split; [apply Qle_refl | tauto].
  - specialize (IH (if utils.Qgtb (pairing.Fee q) m then pairing.Fee q else m)).
    simpl in IH. destruct IH as [Hm Hall].
    destruct (utils.Qgtb (pairing.Fee q) m) eqn:E;
      [apply Qgtb_true_iff in E | apply Qgtb_false_iff in E].
    + split; [apply Qlt_le_weak in E; now apply (Qle_trans _ (pairing.Fee q)) |].
      intros p [<- | Hp]; [exact Hm | now apply Hall].
    + split; [exact Hm |].
      intros p [<- | Hp]; [now apply (Qle_trans _ m) | now apply Hall].
Qed.

Lemma maxFeeOf_bounds providers :
  0 <= utils.maxFeeOf providers
  /\ forall p, In p providers -> pairing.Fee p <= utils.maxFeeOf providers.
Proof. apply (maxFeeOf_from providers 0). Qed.

(** Every entry of the normalized-fee map is the fee of a provider of that
    identifier divided by the same divisor. *)
Lemma normalized_entry_origin (d : Q) providers : forall (m : gmap string Q) k v,
  fold_left (fun normalized p => <[pairing.ID p := pairing.Fee p / d]> normalized)
            providers m !! k = Some v ->
  m !! k = Some v
  \/ exists p, In p providers /\ pairing.ID p = k /\ v = pairing.Fee p / d.
Proof.
  induction providers as [| q providers IH]; intros m k v H; simpl in H.
  - now left.
  - apply IH in H. destruct H as [H | (p & Hp & Hk & Hv)].
    + destruct (decide (pairing.ID q = k)) as [Heq | Hne].
      * subst k. rewrite lookup_insert_eq in H. right. exists q.
        split; [now left |]. split; [reflexivity | congruence].
      * rewrite lookup_insert_ne in H by assumption. now left.
    + right. exists p. split; [now right | tauto].
Qed.

Lemma normalized_fee_in_unit providers k v :
  Forall (fun x => 0 <= pairing.Fee x) providers ->
  utils.ComputeNormalizedFees providers !! k = Some v -> inUnit v.
Proof.
  intros Hpos Hk. unfold utils.ComputeNormalizedFees in Hk.
  apply normalized_entry_origin in Hk.
  destruct Hk as [Hk | (p & Hp & _ & ->)]; [rewrite lookup_empty in Hk; discriminate |].
  rewrite List.Forall_forall in Hpos. specialize (Hpos p Hp).
  destruct (maxFeeOf_bounds providers) as [H0 Hall]. specialize (Hall p Hp).
  unfold inUnit.
  destruct (Qeq_bool (utils.maxFeeOf providers) 0) eqn:E.
  - apply Qeq_bool_iff in E. rewrite E in Hall.
    assert (Hz : pairing.Fee p == 0) by now apply Qle_antisym.
    rewrite Hz. split; [apply Qle_refl | discriminate].
  - apply Qeq_bool_neq in E.
    assert (Hlt : 0 < utils.maxFeeOf providers).
    { apply Qle_lt_or_eq in H0. destruct H0 as [H0 | H0]; [exact H0 |].
      exfalso. apply E. now symmetry. }
    split.
    + apply Qle_shift_div_l; [exact Hlt |]. now rewrite Qmult_0_l.
    + apply Qle_shift_div_r; [exact Hlt |]. now rewrite Qmult_1_l.
Qed.

(** ** Score bounds *)

Lemma ratio_in_unit (a b : Z) : (0 <= a <= b)%Z -> (0 < b)%Z -> inUnit (inject_Z a / inject_Z b).
Proof.
  intros [Ha Hab] Hb. unfold inUnit.
  assert (Hb' : 0 < inject_Z b) by (change 0 with (inject_Z 0); now rewrite <- Zlt_Qlt).
  split.
  - apply Qle_shift_div_l; [exact Hb' |]. rewrite Qmult_0_l.
    change 0 with (inject_Z 0). now rewrite <- Zle_Qle.
  - apply Qle_shift_div_r; [exact Hb' |]. rewrite Qmult_1_l. now rewrite <- Zle_Qle.
Qed.

Lemma countExtra_from (required : gmap string bool) (features : list string) : forall extra,
  (extra <= fold_left (fun extra pf =>
                         if negb (default false (required !! pf)) then S extra else extra)
                      features extra
   <= extra + length features)%nat.
Proof.
  induction features as [| pf features IH]; intros extra; simpl.
  - lia.
  - specialize (IH (if negb (default false (required !! pf)) then S extra else extra)).
    destruct (negb (default false (required !! pf))); lia.
Qed.

Lemma countExtra_le required features :
  (score.countExtra required features <= length features)%nat.
Proof. apply (countExtra_from required features 0%nat). Qed.

Lemma zero_in_unit : inUnit 0.
Proof. split; [apply Qle_refl | discriminate]. Qed.

Lemma FeatureScore_in_unit p policy ctx : inUnit (score.Score score.FeatureScore p policy ctx).
Proof.
  simpl. destruct (length (pairing.Features p) =? 0)%nat eqn:E; [apply zero_in_unit |].
  apply Nat.eqb_neq in E. apply ratio_in_unit.
  - pose proof (countExtra_le (score.requiredMap (pairing.RequiredFeatures policy))
                              (pairing.Features p)). lia.
  - lia.
Qed.

Lemma LocationScore_in_unit p policy ctx : inUnit (score.Score score.LocationScore p policy ctx).
Proof.
  simpl. destruct (score.EqualFold _ _); split; discriminate.
Qed.

Lemma FeeScore_in_unit providers p policy :
  Forall (fun x => 0 <= pairing.Fee x) providers ->
  inUnit (score.Score score.FeeScore p policy (system.preScoreCtxOf providers)).
Proof.
  intros Hpos. simpl.
  destruct (utils.ComputeNormalizedFees providers !! pairing.ID p) as [fee |] eqn:E;
    [| apply zero_in_unit].
  destruct (normalized_fee_in_unit _ _ _ Hpos E) as [H0 H1].
  unfold inUnit. split; lra.
Qed.

Lemma StakeScore_in_unit providers p policy :
  In p providers -> (0 <= pairing.Stake p)%Z ->
  inUnit (score.Score score.StakeScore p policy (system.preScoreCtxOf providers)).
Proof.
  intros Hp Hpos. cbn [score.Score score.StakeScore].
  destruct (score.MaxStake (system.preScoreCtxOf providers) =? 0)%Z; [apply zero_in_unit |].
  apply ratio_in_unit.
  - split; [exact Hpos | now apply MaxStake_bounds].
  - apply MaxStake_positive.
Qed.

(** C7 does not hold: under the context built for the pool of provider 1
    alone, the stake score of provider 2 is 2. *)
Lemma StakeScore_exceeds_one :
  score.MaxStake inputs.smallCtx = 1000%Z
  /\ score.Score score.StakeScore mock.provider2 mock.ConsumerPolicy inputs.smallCtx == 2
  /\ ~ inUnit (score.Score score.StakeScore mock.provider2 mock.ConsumerPolicy inputs.smallCtx).
Proof.
  split; [reflexivity |]. split; [reflexivity |].
  intros [_ H]. vm_compute in H. now apply H.
Qed.

(** C7, amended: FeatureScore and LocationScore lie in [0,1] for all
    providers, policies and contexts; for a pool whose providers have
    non-negative stake and fee and the context [RankProviders] builds from
    that pool, FeeScore lies in [0,1] for every provider and each of the
    four scorers lies in [0,1] for every provider of the pool. *)
Theorem scorers_in_unit_interval providers policy :
  Forall (fun x => (0 <= pairing.Stake x)%Z /\ 0 <= pairing.Fee x) providers ->
  (forall p policy' ctx,
     inUnit (score.Score score.FeatureScore p policy' ctx)
     /\ inUnit (score.Score score.LocationScore p policy' ctx))
  /\ (forall p, inUnit (score.Score score.FeeScore p policy (system.preScoreCtxOf providers)))
  /\ (forall p s, In p providers -> In s config.Scorers ->
                  inUnit (score.Score s p policy (system.preScoreCtxOf providers))).
Proof.
  intros Hpos.
  assert (Hfee : Forall (fun x => 0 <= pairing.Fee x) providers).
  { rewrite !List.Forall_forall in *. intros x Hx. now apply Hpos. }
  split; [| split].
  - intros p policy' ctx. split; [apply FeatureScore_in_unit | apply LocationScore_in_unit].
  - intros p. now apply FeeScore_in_unit.
  - intros p s Hp Hs. simpl in Hs. destruct Hs as [<- | [<- | [<- | [<- | []]]]].
    + apply StakeScore_in_unit; [exact Hp |].
      rewrite List.Forall_forall in Hpos. now apply Hpos.
    + apply FeatureScore_in_unit.
    + apply LocationScore_in_unit.
    + now apply FeeScore_in_unit.
Qed.

(** The mock pool has non-negative stakes and fees. *)
Lemma scorers_in_unit_interval_witness :
  Forall (fun x => (0 <= pairing.Stake x)%Z /\ 0 <= pairing.Fee x) mock.Providers
  /\ inUnit (score.Score score.StakeScore mock.provider5 mock.ConsumerPolicy
                         (system.preScoreCtxOf mock.Providers)).
Proof.
  assert (H : Forall (fun x => (0 <= pairing.Stake x)%Z /\ 0 <= pairing.Fee x) mock.Providers).
  { repeat constructor; simpl; discriminate. }
  split; [exact H |].
  apply (scorers_in_unit_interval mock.Providers mock.ConsumerPolicy H).
  - simpl. tauto.
  - simpl. tauto.
Defined.

(** ** A pool without stake *)

(** C9: for a non-empty pool in which every stake is 0, the maximum stake
    stored in the context is 1, the stake score of every provider of the
    pool is 0, [RankProviders] has a run, and in every record of every run
    the entry of Components under "StakeScore" is 0, provided StakeScore is
    configured and is the only scorer configured under that name. *)
Theorem stakeless_pool_scores_zero ps providers policy :
  providers <> [] ->
  Forall (fun p => pairing.Stake p = 0%Z) providers ->
  utils.ComputeMaxStake providers = 0%Z
  /\ score.MaxStake (system.preScoreCtxOf providers) = 1%Z
  /\ (forall p, In p providers ->
        score.Score score.StakeScore p policy (system.preScoreCtxOf providers) == 0)
  /\ system.RankProviders_may ps providers policy (system.RankProviders ps providers policy)
  /\ length (system.RankProviders ps providers policy) = length providers
  /\ (In score.StakeScore (system.scorers ps) ->
      (forall s, In s (system.scorers ps) -> score.Name s = "StakeScore" -> s = score.StakeScore) ->
      forall out sc,
        system.RankProviders_may ps providers policy out -> In sc out ->
        exists v, pairing.Components sc !! "StakeScore" = Some v /\ v == 0).
Proof.
  intros Hne Hzero.
  assert (Hmax : utils.ComputeMaxStake providers = 0%Z) by now apply ComputeMaxStake_stakeless.
  assert (Hctx : score.MaxStake (system.preScoreCtxOf providers) = 1%Z).
  { simpl. now rewrite Hmax. }
  assert (Hscore : forall p, In p providers ->
            score.Score score.StakeScore p policy (system.preScoreCtxOf providers) == 0).
  { intros p Hp. cbn [score.Score score.StakeScore]. rewrite Hctx.
    rewrite List.Forall_forall in Hzero. rewrite (Hzero p Hp). reflexivity. }
  split; [exact Hmax |]. split; [exact Hctx |]. split; [exact Hscore |].
  split; [apply RankProviders_may_run |].
  split; [rewrite RankProviders_map; apply length_map |].
  intros Hin Honly out sc Hrun Hsc.
  destruct (RankProviders_may_in _ _ _ _ _ Hrun Hsc) as [Hp Heq].
  assert (Hsome : is_Some (pairing.Components sc !! "StakeScore")).
  { rewrite Heq. unfold system.rankWorker. cbn [pairing.Components].
    rewrite scoreAll_scoreFrom. apply scoreFrom_has_entry. right.
    change "StakeScore" with (score.Name score.StakeScore). now apply in_map. }
  destruct Hsome as [v Hv]. exists v. split; [exact Hv |].
  rewrite Heq in Hv. unfold system.rankWorker in Hv. cbn [pairing.Components] in Hv.
  rewrite scoreAll_scoreFrom in Hv. apply scoreFrom_entry_origin in Hv.
  destruct Hv as [[Hv _] | (s & Hs & Hname & ->)].
  - simpl in Hv. rewrite lookup_empty in Hv. discriminate.
  - rewrite (Honly s Hs Hname). now apply Hscore.
Qed.

(** A pool of two providers without stake. *)
Lemma stakeless_pool_scores_zero_witness :
  inputs.stakelessPool <> []
  /\ Forall (fun p => pairing.Stake p = 0%Z) inputs.stakelessPool
  /\ score.MaxStake (system.preScoreCtxOf inputs.stakelessPool) = 1%Z.
Proof.
  assert (Hne : inputs.stakelessPool <> []) by discriminate.
  assert (Hz : Forall (fun p => pairing.Stake p = 0%Z) inputs.stakelessPool).
  { repeat constructor. }
  split; [exact Hne |]. split; [exact Hz |].
  apply (stakeless_pool_scores_zero (config.Init true) inputs.stakelessPool
           mock.ConsumerPolicy Hne Hz).
Defined.

(** ** Worked examples *)

(** The worker path of [FilterProviders]: 64 providers are above the
    threshold of 50, and the survivors are again the providers 1, 5, 8 of
    each copy of the mock pool. *)
Example parallel_path_example :
  (length inputs.largePool <=? system.parallelFilterThreshold)%nat = false
  /\ map pairing.ID
         (system.FilterProviders (config.Init true) inputs.largePool mock.ConsumerPolicy)
     = concat (repeat ["1"; "5"; "8"] 8).
Proof. split; vm_compute; reflexivity. Qed.

(** Scenario B: without weights the four scorers are averaged, and
    provider 5 comes out on top. *)
Example scenarioB_average :
  map (fun sc => (pairing.ID (pairing.Provider_ sc), Qred (pairing.Score sc)))
      (system.sortSlice
         (system.RankProviders (config.Init true)
            (system.FilterProviders (config.Init true) mock.Providers inputs.noWeights)
            inputs.noWeights))
  = [("5", 23 # 30); ("8", 83 # 120); ("1", 5 # 12)].
Proof. vm_compute. reflexivity. Qed.

(** Scenario D: the records of a pool without stake. *)
Example scenarioD_stakeless :
  map (fun sc => (pairing.ID (pairing.Provider_ sc),
                  pairing.Components sc !! "StakeScore"))
      (system.RankProviders (config.Init true) inputs.stakelessPool mock.ConsumerPolicy)
  = [("1", Some 0); ("2", Some 0)].
Proof. vm_compute. reflexivity. Qed.

(** The mock policy leaves FeeScore out of the weights: scoring provider 5
    under a context that knows no fees changes its FeeScore component from
    11/15 to 0 and leaves the final score as it is. *)
Example scenarioA_fee_ignored :
  pairing.Components
    (system.rankWorker (config.Init true) mock.ConsumerPolicy
       (system.preScoreCtxOf [mock.provider1; mock.provider5; mock.provider8])
       mock.provider5) !! "FeeScore" = Some (22 # 30)
  /\ pairing.Components
       (system.rankWorker (config.Init true) mock.ConsumerPolicy
          {| score.MaxStake := 3000; score.AverageLatency := 0; score.NormalizedFees := ∅ |}
          mock.provider5) !! "FeeScore" = Some 0
  /\ pairing.Score
       (system.rankWorker (config.Init true) mock.ConsumerPolicy
          (system.preScoreCtxOf [mock.provider1; mock.provider5; mock.provider8])
          mock.provider5)
     = pairing.Score
         (system.rankWorker (config.Init true) mock.ConsumerPolicy
            {| score.MaxStake := 3000; score.AverageLatency := 0; score.NormalizedFees := ∅ |}
            mock.provider5).
Proof. repeat split; vm_compute; reflexivity. Qed.

(** * Further properties of the code *)

(** ** [ComputeMaxStake] *)

Lemma ComputeMaxStake_attained providers : forall m,
  let r := fold_left (fun maxStake p =>
                        if (maxStake <? pairing.Stake p)%Z then pairing.Stake p else maxStake)
                     providers m in
  r = m \/ exists p, In p providers /\ pairing.Stake p = r.
Proof.
  induction providers as [| q providers IH]; intros m; simpl.
  - now left.
  - specialize (IH (if (m <? pairing.Stake q)%Z then pairing.Stake q else m)).
    simpl in IH. destruct IH as [IH | (p & Hp & Hr)].
    + destruct (m <? pairing.Stake q)%Z; [| now left].
      right. exists q. split; [now left | now symmetry].
    + right. exists p. split; [now right | exact Hr].
Qed.

Lemma ComputeMaxStake_is_largest_aux providers :
  (0 <= utils.ComputeMaxStake providers)%Z
  /\ (forall p, In p providers -> (pairing.Stake p <= utils.ComputeMaxStake providers)%Z)
  /\ (utils.ComputeMaxStake providers = 0%Z
      \/ exists p, In p providers /\ pairing.Stake p = utils.ComputeMaxStake providers).
Proof.
  destruct (ComputeMaxStake_bounds providers) as [H0 Hub].
  pose proof (ComputeMaxStake_attained providers 0%Z) as Hat. simpl in Hat.
  fold (utils.ComputeMaxStake providers) in Hat. tauto.
Qed.

(** [ComputeMaxStake] returns the largest of 0 and the stakes of the list:
    it is never negative, no stake exceeds it, it is 0 or the stake of a
    provider of the list, and it does not depend on the order of the
    list. *)
Theorem ComputeMaxStake_is_largest providers :
  (0 <= utils.ComputeMaxStake providers)%Z
  /\ (forall p, In p providers -> (pairing.Stake p <= utils.ComputeMaxStake providers)%Z)
  /\ (utils.ComputeMaxStake providers = 0%Z
      \/ exists p, In p providers /\ pairing.Stake p = utils.ComputeMaxStake providers)
  /\ (forall providers', Permutation providers providers' ->
        utils.ComputeMaxStake providers' = utils.ComputeMaxStake providers).
Proof.
  destruct (ComputeMaxStake_bounds providers) as [H0 Hub].
  pose proof (ComputeMaxStake_attained providers 0%Z) as Hat. simpl in Hat.
  fold (utils.ComputeMaxStake providers) in Hat.
  split; [exact H0 |]. split; [exact Hub |]. split; [exact Hat |].
  intros providers' Hperm.
  destruct (ComputeMaxStake_bounds providers') as [H0' Hub'].
  pose proof (ComputeMaxStake_attained providers' 0%Z) as Hat'. simpl in Hat'.
  fold (utils.ComputeMaxStake providers') in Hat'.
  apply Z.le_antisymm.
  - destruct Hat' as [-> | (p & Hp & <-)]; [exact H0 |].
    apply Hub. now apply (Permutation_in _ (Permutation_sym Hperm)).
  - destruct Hat as [-> | (p & Hp & <-)]; [exact H0' |].
    apply Hub'. now apply (Permutation_in _ Hperm).
Qed.

(** ** [ComputeNormalizedFees] *)

Lemma ComputeNormalizedFees_fold providers :
  utils.ComputeNormalizedFees providers
  = fold_left (fun normalized p =>
                 <[pairing.ID p := pairing.Fee p / feeDivisor providers]> normalized)
              providers ∅.
Proof. reflexivity. Qed.

Lemma normalized_has_entry (d : Q) providers : forall (m : gmap string Q) k,
  is_Some (m !! k) \/ In k (map pairing.ID providers) ->
  is_Some (fold_left (fun normalized p => <[pairing.ID p := pairing.Fee p / d]> normalized)
                     providers m !! k).
Proof.
  induction providers as [| q providers IH]; intros m k H; simpl in *.
  - tauto.
  - apply IH. destruct (decide (pairing.ID q = k)) as [-> | Hne].
    + left. rewrite lookup_insert_eq. eauto.
    + rewrite lookup_insert_ne by assumption. tauto.
Qed.

Lemma normalized_own_entry (d : Q) providers : forall (m : gmap string Q) p,
  NoDup (map pairing.ID providers) -> In p providers ->
  fold_left (fun normalized p => <[pairing.ID p := pairing.Fee p / d]> normalized)
            providers m !! pairing.ID p
  = Some (pairing.Fee p / d).
Proof.
  induction providers as [| q providers IH]; intros m p Hnd Hin; [destruct Hin |].
  simpl in Hnd |- *. apply NoDup_cons in Hnd as [Hfresh Hnd].
  destruct Hin as [-> | Hin]; [| now apply IH].
  destruct (normalized_has_entry d providers (<[pairing.ID p := pairing.Fee p / d]> m)
              (pairing.ID p)) as [v Hv].
  { left. rewrite lookup_insert_eq. eauto. }
  rewrite Hv. apply normalized_entry_origin in Hv.
  destruct Hv as [Hv | (p' & Hp' & Hid & _)].
  - rewrite lookup_insert_eq in Hv. congruence.
  - exfalso. apply Hfresh. apply list_elem_of_In. rewrite <- Hid. now apply in_map.
Qed.

Lemma feeDivisor_positive providers : 0 < feeDivisor providers.
Proof.
  unfold feeDivisor. destruct (maxFeeOf_bounds providers) as [H0 _].
  destruct (Qeq_bool (utils.maxFeeOf providers) 0) eqn:E; [reflexivity |].
  apply Qeq_bool_neq in E. apply Qle_lt_or_eq in H0.
  destruct H0 as [H0 | H0]; [exact H0 |]. exfalso. apply E. now symmetry.
Qed.



(** ** How the stake and fee scores order providers *)

Lemma maxFeeOf_attained providers : forall m,
  let r := fold_left (fun maxFee p =>
                        if utils.Qgtb (pairing.Fee p) maxFee then pairing.Fee p else maxFee)
                     providers m in
  r = m \/ exists p, In p providers /\ pairing.Fee p = r.
Proof.
  induction providers as [| q providers IH]; intros m; simpl.
  - now left.
  - specialize (IH (if utils.Qgtb (pairing.Fee q) m then pairing.Fee q else m)).
    simpl in IH. destruct IH as [IH | (p & Hp & Hr)].
    + destruct (utils.Qgtb (pairing.Fee q) m); [| now left].
      right. exists q. split; [now left | now symmetry].
    + right. exists p. split; [now right | exact Hr].
Qed.

Lemma Qdiv_le_compat a b d : 0 < d -> a <= b -> a / d <= b / d.
Proof.
  intros Hd Hab. unfold Qdiv. apply Qmult_le_compat_r; [exact Hab |].
  apply Qlt_le_weak. now apply Qinv_lt_0_compat.
Qed.

Lemma FeeScore_own providers policy p :
  NoDup (map pairing.ID providers) -> In p providers ->
  score.Score score.FeeScore p policy (system.preScoreCtxOf providers)
  = 1 - pairing.Fee p / feeDivisor providers.
Proof.
  intros Hnd Hp. simpl. rewrite ComputeNormalizedFees_fold.
  now rewrite (normalized_own_entry _ _ _ _ Hnd Hp).
Qed.

(** Within a pool of pairwise distinct identifiers, under the context
    [RankProviders] builds from it, the fee score of a provider is 1 minus
    its fee over the pool's divisor; a provider with a lower fee never has
    a lower fee score; a provider with the highest fee of the pool, if that
    fee is positive, scores 0; and a provider with fee 0 scores 1. *)
Theorem FeeScore_prefers_lower_fee providers policy p :
  NoDup (map pairing.ID providers) ->
  In p providers ->
  score.Score score.FeeScore p policy (system.preScoreCtxOf providers)
  == 1 - pairing.Fee p / feeDivisor providers
  /\ (forall q, In q providers -> pairing.Fee p <= pairing.Fee q ->
        score.Score score.FeeScore q policy (system.preScoreCtxOf providers)
        <= score.Score score.FeeScore p policy (system.preScoreCtxOf providers))
  /\ (0 < pairing.Fee p ->
      (forall q, In q providers -> pairing.Fee q <= pairing.Fee p) ->
      score.Score score.FeeScore p policy (system.preScoreCtxOf providers) == 0)
  /\ (pairing.Fee p == 0 ->
      score.Score score.FeeScore p policy (system.preScoreCtxOf providers) == 1).
Proof.
  intros Hnd Hp. rewrite (FeeScore_own _ _ _ Hnd Hp).
  pose proof (feeDivisor_positive providers) as Hd.
  split; [reflexivity |]. split; [| split].
  - intros q Hq Hle. rewrite (FeeScore_own _ _ _ Hnd Hq).
    pose proof (Qdiv_le_compat _ _ _ Hd Hle). lra.
  - intros Hpos Hmax.
    assert (Hdiv : feeDivisor providers == pairing.Fee p).
    { destruct (maxFeeOf_bounds providers) as [_ Hub]. specialize (Hub p Hp).
      assert (Hle : utils.maxFeeOf providers <= pairing.Fee p).
      { pose proof (maxFeeOf_attained providers 0) as Hat. simpl in Hat.
        fold (utils.maxFeeOf providers) in Hat.
        destruct Hat as [-> | (q & Hq & <-)]; [now apply Qlt_le_weak | now apply Hmax]. }
      assert (Heq : utils.maxFeeOf providers == pairing.Fee p) by now apply Qle_antisym.
      unfold feeDivisor.
      destruct (Qeq_bool (utils.maxFeeOf providers) 0) eqn:E; [| exact Heq].
      apply Qeq_bool_iff in E. rewrite E in Heq. rewrite <- Heq in Hpos.
      now apply Qlt_irrefl in Hpos. }
    rewrite Hdiv. unfold Qdiv. rewrite Qmult_inv_r; [ring |].
    intros H0. rewrite H0 in Hpos. now apply Qlt_irrefl in Hpos.
  - intros Hz. rewrite Hz. unfold Qdiv. ring.
Qed.

(** The mock pool and its provider 8. *)
Lemma FeeScore_prefers_lower_fee_witness :
  NoDup (map pairing.ID mock.Providers)
  /\ In mock.provider8 mock.Providers
  /\ score.Score score.FeeScore mock.provider8 mock.ConsumerPolicy
                 (system.preScoreCtxOf mock.Providers)
     == 1 - pairing.Fee mock.provider8 / feeDivisor mock.Providers.
Proof.
  assert (Hnd : NoDup (map pairing.ID mock.Providers)).
  { simpl. repeat constructor; rewrite ?list_elem_of_In; simpl; intuition discriminate. }
  assert (Hin : In mock.provider8 mock.Providers) by (simpl; tauto).
  split; [exact Hnd |]. split; [exact Hin |].
  apply (FeeScore_prefers_lower_fee mock.Providers mock.ConsumerPolicy mock.provider8 Hnd Hin).
Defined.

(** Under the context [RankProviders] builds from a pool, a provider with
    a higher stake never has a lower stake score, whether or not the two
    providers belong to the pool; and a provider of the pool that holds the
    highest stake, if that stake is positive, scores 1. *)
Theorem StakeScore_prefers_higher_stake providers policy p :
  (forall q, (pairing.Stake p <= pairing.Stake q)%Z ->
     score.Score score.StakeScore p policy (system.preScoreCtxOf providers)
     <= score.Score score.StakeScore q policy (system.preScoreCtxOf providers))
  /\ (In p providers -> (0 < pairing.Stake p)%Z ->
      (forall q, In q providers -> (pairing.Stake q <= pairing.Stake p)%Z) ->
      score.MaxStake (system.preScoreCtxOf providers) = pairing.Stake p
      /\ score.Score score.StakeScore p policy (system.preScoreCtxOf providers) == 1).
Proof.
  pose proof (MaxStake_positive providers) as HM.
  split.
  - intros q Hle. cbn [score.Score score.StakeScore].
    destruct (score.MaxStake (system.preScoreCtxOf providers) =? 0)%Z eqn:E;
      [apply Z.eqb_eq in E; lia |].
    apply Qdiv_le_compat.
    + change 0 with (inject_Z 0). now rewrite <- Zlt_Qlt.
    + now rewrite <- Zle_Qle.
  - intros Hp Hpos Hmax.
    assert (HMp : score.MaxStake (system.preScoreCtxOf providers) = pairing.Stake p).
    { destruct (ComputeMaxStake_is_largest_aux providers) as (_ & Hub & Hat).
      specialize (Hub p Hp). simpl.
      destruct (utils.ComputeMaxStake providers =? 0)%Z eqn:E;
        [apply Z.eqb_eq in E; lia |].
      destruct Hat as [Hat | (q & Hq & Hat)]; [apply Z.eqb_neq in E; lia |].
      specialize (Hmax q Hq). lia. }
    split; [exact HMp |].
    cbn [score.Score score.StakeScore]. rewrite HMp.
    destruct (pairing.Stake p =? 0)%Z eqn:E; [apply Z.eqb_eq in E; lia |].
    unfold Qdiv. apply Qmult_inv_r.
    intros H0. unfold Qeq in H0. simpl in H0. lia.
Qed.

(** ** The feature filter and the feature score *)

Lemma found_iff req features : filter.found req features = true <-> In req features.
Proof.
  unfold filter.found. rewrite existsb_exists. split.
  - intros (x & Hx & Heq). apply String.eqb_eq in Heq. now subst.
  - intros H. exists req. split; [exact H | apply String.eqb_refl].
Qed.

(** The feature filter accepts a provider iff every required feature is
    among the provider's features, however often and in whatever order
    either list names them; [Apply] keeps exactly those providers; and a
    policy that requires nothing accepts every provider. *)
Theorem FeatureFilter_accepts_iff provider policy :
  (filter.ApplySingle filter.FeatureFilter provider policy = true
   <-> forall r, In r (pairing.RequiredFeatures policy) -> In r (pairing.Features provider))
  /\ (forall l p, In p (filter.Apply filter.FeatureFilter l policy)
                  <-> In p l /\ forall r, In r (pairing.RequiredFeatures policy) ->
                                          In r (pairing.Features p))
  /\ (pairing.RequiredFeatures policy = [] ->
      filter.ApplySingle filter.FeatureFilter provider policy = true).
Proof.
  assert (Hiff : forall p,
            filter.ApplySingle filter.FeatureFilter p policy = true
            <-> forall r, In r (pairing.RequiredFeatures policy) -> In r (pairing.Features p)).
  { intros p. simpl. unfold filter.hasAll, filter.requiredSet. rewrite forallb_forall.
    split; intros H r Hr.
    - apply found_iff, H. apply list_elem_of_In, elem_of_elements, elem_of_list_to_set.
      now apply list_elem_of_In.
    - apply found_iff, H. apply list_elem_of_In.
      apply list_elem_of_In, elem_of_elements, elem_of_list_to_set in Hr. exact Hr. }
  split; [apply Hiff |]. split.
  - intros l p. rewrite <- Hiff. simpl. apply filter_In.
  - intros Hnone. apply Hiff. rewrite Hnone. intros r [].
Qed.

Lemma requiredMap_from features : forall (m : gmap string bool) pf,
  default false
    (fold_left (fun required feat => <[feat := true]> required) features m !! pf)
  = existsb (String.eqb pf) features || default false (m !! pf).
Proof.
  induction features as [| feat features IH]; intros m pf; simpl.
  - reflexivity.
  - rewrite IH. destruct (String.eqb pf feat) eqn:E.
    + apply String.eqb_eq in E. subst feat. rewrite lookup_insert_eq. simpl.
      now rewrite orb_true_r.
    + apply String.eqb_neq in E. rewrite lookup_insert_ne by congruence. reflexivity.
Qed.

Lemma requiredMap_lookup features pf :
  default false (score.requiredMap features !! pf) = existsb (String.eqb pf) features.
Proof.
  unfold score.requiredMap. rewrite requiredMap_from, lookup_empty. apply orb_false_r.
Qed.

Lemma countExtra_is_length required features :
  score.countExtra (score.requiredMap required) features
  = length (extraFeatures required features).
Proof.
  unfold score.countExtra, extraFeatures.
  enough (H : forall extra,
             fold_left (fun extra pf =>
                          if negb (default false (score.requiredMap required !! pf))
                          then S extra else extra) features extra
             = (extra + length (List.filter
                                  (fun pf => negb (existsb (String.eqb pf) required))
                                  features))%nat)
    by apply (H 0%nat).
  induction features as [| pf features IH]; intros extra; simpl.
  - lia.
  - rewrite IH, requiredMap_lookup.
    destruct (existsb (String.eqb pf) required); simpl; lia.
Qed.

Lemma filter_all_length {A} (f : A -> bool) (l : list A) :
  (length (List.filter f l) <= length l)%nat
  /\ (length (List.filter f l) = length l -> forall x, In x l -> f x = true).
Proof.
  induction l as [| a l [IHle IHall]]; simpl.
  - split; [lia | intros _ x []].
  - destruct (f a) eqn:E; simpl; split; try lia.
    intros Hlen x [<- | Hx]; [exact E | apply IHall; [lia | exact Hx]].
Qed.

Lemma filter_nil_iff {A} (f : A -> bool) (l : list A) :
  List.filter f l = [] <-> forall x, In x l -> f x = false.
Proof.
  induction l as [| a l IH]; simpl.
  - split; [intros _ x [] | reflexivity].
  - destruct (f a) eqn:E.
    + split; [discriminate |]. intros H. specialize (H a (or_introl eq_refl)). congruence.
    + rewrite IH. split.
      * intros H x [<- | Hx]; [exact E | now apply H].
      * intros H x Hx. apply H. now right.
Qed.

Lemma not_required_iff required pf :
  negb (existsb (String.eqb pf) required) = false <-> In pf required.
Proof.
  rewrite negb_false_iff, existsb_exists. split.
  - intros (x & Hx & Heq). apply String.eqb_eq in Heq. now subst.
  - intros H. exists pf. split; [exact H | apply String.eqb_refl].
Qed.

Lemma FeatureScore_ratio p policy ctx :
  pairing.Features p <> [] ->
  score.Score score.FeatureScore p policy ctx
  = inject_Z (Z.of_nat (length (extraFeatures (pairing.RequiredFeatures policy)
                                              (pairing.Features p))))
    / inject_Z (Z.of_nat (length (pairing.Features p))).
Proof.
  intros Hne. simpl. destruct (pairing.Features p) as [| f fs] eqn:E; [congruence |].
  cbn [length Nat.eqb]. now rewrite countExtra_is_length.
Qed.

(** The feature score of a provider with features is the number of its
    features that the policy does not require, each repetition counted,
    over the number of its features; it is 0 iff every feature of the
    provider is required (in particular for a provider without features),
    and 1 iff the provider has features and none of them is required. *)
Theorem FeatureScore_counts_extra p policy ctx :
  (pairing.Features p <> [] ->
   score.Score score.FeatureScore p policy ctx
   == inject_Z (Z.of_nat (length (extraFeatures (pairing.RequiredFeatures policy)
                                                (pairing.Features p))))
      / inject_Z (Z.of_nat (length (pairing.Features p))))
  /\ (score.Score score.FeatureScore p policy ctx == 0
      <-> forall f, In f (pairing.Features p) -> In f (pairing.RequiredFeatures policy))
  /\ (score.Score score.FeatureScore p policy ctx == 1
      <-> pairing.Features p <> []
          /\ forall f, In f (pairing.Features p) -> ~ In f (pairing.RequiredFeatures policy)).
Proof.
  split; [intros Hne; now rewrite FeatureScore_ratio |].
  destruct (pairing.Features p) as [| f0 fs] eqn:E.
  - assert (Hz : score.Score score.FeatureScore p policy ctx = 0) by (simpl; now rewrite E).
    rewrite Hz. split.
    + split; [intros _ f [] | reflexivity].
    + split; [discriminate | intros [H _]; congruence].
  - assert (Hne : pairing.Features p <> []) by (rewrite E; discriminate).
    rewrite (FeatureScore_ratio p policy ctx Hne), E.
    set (features := f0 :: fs) in *.
    set (extra := extraFeatures (pairing.RequiredFeatures policy) features).
    assert (Hd : ~ inject_Z (Z.of_nat (length features)) == 0).
    { unfold Qeq. simpl. lia. }
    split.
    + split.
      * intros H0.
        assert (Hn : inject_Z (Z.of_nat (length extra)) == 0).
        { rewrite <- (Qmult_div_r (inject_Z (Z.of_nat (length extra))) _ Hd), H0. ring. }
        unfold Qeq in Hn. cbn [Qnum Qden inject_Z] in Hn. rewrite Z.mul_1_r in Hn.
        assert (Hnil : length extra = 0%nat) by now apply Nat2Z.inj.
        apply length_zero_iff_nil in Hnil.
        intros f Hf. apply not_required_iff.
        unfold extra, extraFeatures in Hnil. rewrite filter_nil_iff in Hnil. now apply Hnil.
      * intros Hall. assert (Hnil : extra = []).
        { unfold extra, extraFeatures. apply filter_nil_iff. intros f Hf.
          now apply not_required_iff, Hall. }
        rewrite Hnil. simpl. unfold Qdiv. ring.
    + split.
      * intros H1. split; [discriminate |].
        assert (Hn : inject_Z (Z.of_nat (length extra)) == inject_Z (Z.of_nat (length features))).
        { rewrite <- (Qmult_div_r (inject_Z (Z.of_nat (length extra))) _ Hd), H1. ring. }
        unfold Qeq in Hn. cbn [Qnum Qden inject_Z] in Hn. rewrite !Z.mul_1_r in Hn.
        assert (Hlen : length extra = length features) by now apply Nat2Z.inj.
        intros f Hf Hreq. apply not_required_iff in Hreq.
        destruct (filter_all_length
                    (fun pf => negb (existsb (String.eqb pf) (pairing.RequiredFeatures policy)))
                    features) as [_ Hall].
        rewrite (Hall Hlen f Hf) in Hreq. discriminate.
      * intros [_ Hnone].
        assert (Hsame : extra = features).
        { unfold extra, extraFeatures. apply forallb_filter_id, forallb_forall.
          intros f Hf.
          destruct (negb (existsb (String.eqb f) (pairing.RequiredFeatures policy))) eqn:En;
            [reflexivity |].
          apply not_required_iff in En. now apply Hnone in En. }
        rewrite Hsame. unfold Qdiv. now apply Qmult_inv_r.
Qed.

(** ** The filter stage as a whole *)

Lemma forallb_order {A} (f : A -> bool) (l l' : list A) :
  Permutation l l' -> forallb f l = forallb f l'.
Proof.
  induction 1; simpl.
  - reflexivity.
  - now rewrite IHPermutation.
  - now rewrite !andb_assoc, (andb_comm (f y)).
  - congruence.
Qed.

Lemma known_filters_consistent fs :
  Forall (fun f => In f config.Filters) fs -> Forall consistent fs.
Proof.
  rewrite !List.Forall_forall. intros H f Hf. now apply config_Filters_consistent, H.
Qed.

(** For filters drawn from the configured set, the order in which a
    system lists them does not matter: two systems whose filter lists are
    rearrangements of each other return the same list from
    [FilterProviders], and every run of one is a rearrangement of every run
    of the other. *)
Theorem FilterProviders_filter_order fs fs' scs scs' strict strict' providers policy :
  Forall (fun f => In f config.Filters) fs ->
  Permutation fs fs' ->
  system.FilterProviders (system.NewPairingSystem fs scs strict) providers policy
  = system.FilterProviders (system.NewPairingSystem fs' scs' strict') providers policy
  /\ (forall out out',
        system.FilterProviders_may (system.NewPairingSystem fs scs strict) providers policy out ->
        system.FilterProviders_may (system.NewPairingSystem fs' scs' strict') providers policy out' ->
        Permutation out out').
Proof.
  intros Hknown Hperm.
  assert (Hknown' : Forall (fun f => In f config.Filters) fs').
  { rewrite !List.Forall_forall in *. intros f Hf. apply Hknown.
    now apply (Permutation_in _ (Permutation_sym Hperm)). }
  assert (Heq : system.FilterProviders (system.NewPairingSystem fs scs strict) providers policy
                = system.FilterProviders (system.NewPairingSystem fs' scs' strict')
                                         providers policy).
  { rewrite !FilterProviders_eq by now apply known_filters_consistent.
    apply filter_ext. intros p. unfold system.filterWorker. simpl. now apply forallb_order. }
  split; [exact Heq |].
  intros out out' Hrun Hrun'.
  apply FilterProviders_may_perm in Hrun, Hrun'.
  rewrite Hrun, Hrun', Heq. reflexivity.
Qed.

(** The configured filters in their configured and in the reverse order. *)
Lemma FilterProviders_filter_order_witness :
  Forall (fun f => In f config.Filters) config.Filters
  /\ Permutation config.Filters (rev config.Filters)
  /\ system.FilterProviders
       (system.NewPairingSystem config.Filters config.Scorers true)
       mock.Providers mock.ConsumerPolicy
     = system.FilterProviders
         (system.NewPairingSystem (rev config.Filters) config.Scorers true)
         mock.Providers mock.ConsumerPolicy.
Proof.
  assert (H : Forall (fun f => In f config.Filters) config.Filters).
  { apply List.Forall_forall. intros f Hf. exact Hf. }
  assert (Hp : Permutation config.Filters (rev config.Filters)) by apply Permutation_rev.
  split; [exact H |]. split; [exact Hp |].
  apply (FilterProviders_filter_order config.Filters (rev config.Filters) config.Scorers
           config.Scorers true true mock.Providers mock.ConsumerPolicy H Hp).
Defined.

Lemma filter_sublist {A} (f : A -> bool) (l : list A) : sublist (List.filter f l) l.
Proof.
  induction l as [| a l IH]; simpl.
  - constructor.
  - destruct (f a); now constructor.
Qed.

Lemma filter_idempotent {A} (f : A -> bool) (l : list A) :
  List.filter f (List.filter f l) = List.filter f l.
Proof.
  induction l as [| a l IH]; simpl; [reflexivity |].
  destruct (f a) eqn:E; simpl; [rewrite E; now f_equal | exact IH].
Qed.

Lemma filter_perm {A} (f : A -> bool) (l l' : list A) :
  Permutation l l' -> Permutation (List.filter f l) (List.filter f l').
Proof.
  induction 1 as [| x l l' _ IH | x y l | l l' l'' _ IH1 _ IH2]; simpl.
  - reflexivity.
  - destruct (f x); [now apply perm_skip | exact IH].
  - destruct (f x), (f y); try reflexivity. apply perm_swap.
  - now transitivity (List.filter f l').
Qed.

(** For filters drawn from the configured set, every run of
    [FilterProviders], through the worker pool or not, returns providers of
    the input, each at most as often as the input holds it, so never more
    than the input holds; filtering the output of a run again returns a
    rearrangement of it; and a list whose providers all pass comes back
    rearranged at most.  On the sequential path (at most 50 providers) the
    output is a subsequence of the input (nothing moved), filtering it
    again returns it as it is, and a list whose providers all pass is
    returned unchanged. *)
Theorem FilterProviders_runs_select ps providers policy out :
  Forall (fun f => In f config.Filters) (system.filters ps) ->
  system.FilterProviders_may ps providers policy out ->
  out ⊆+ providers
  /\ (length out <= length providers)%nat
  /\ (forall out', system.FilterProviders_may ps out policy out' -> Permutation out' out)
  /\ ((forall p, In p providers -> passesAll ps policy p) -> Permutation out providers)
  /\ ((length providers <= system.parallelFilterThreshold)%nat ->
      sublist out providers
      /\ (forall out', system.FilterProviders_may ps out policy out' -> out' = out)
      /\ ((forall p, In p providers -> passesAll ps policy p) -> out = providers)).
Proof.
  intros Hknown Hrun. apply known_filters_consistent in Hknown.
  pose proof (FilterProviders_may_perm _ _ _ _ Hrun) as Hperm.
  rewrite FilterProviders_eq in Hperm by assumption.
  set (f := system.filterWorker ps policy) in *.
  assert (Hsub : out ⊆+ providers).
  { rewrite Hperm. apply sublist_submseteq, filter_sublist. }
  assert (Hall : (forall p, In p providers -> passesAll ps policy p) ->
                 List.filter f providers = providers).
  { intros Hpass. apply forallb_filter_id, forallb_forall. intros p Hp.
    unfold f, system.filterWorker. apply forallb_forall. intros g Hg. now apply Hpass. }
  assert (Hagain : List.filter f out = List.filter f out -> Permutation (List.filter f out) out).
  { intros _. rewrite (filter_perm f _ _ Hperm), filter_idempotent. now symmetry. }
  split; [exact Hsub |]. split; [| split; [| split]].
  - now apply submseteq_length.
  - intros out' Hrun'. apply FilterProviders_may_perm in Hrun'.
    rewrite FilterProviders_eq in Hrun' by assumption. fold f in Hrun'.
    rewrite Hrun'. now apply Hagain.
  - intros Hpass. now rewrite Hperm, Hall.
  - intros Hle.
    assert (Hout : out = List.filter f providers).
    { rewrite (FilterProviders_may_sequential _ _ _ _ Hle Hrun).
      now apply FilterProviders_eq. }
    split; [| split].
    + rewrite Hout. apply filter_sublist.
    + intros out' Hrun'.
      assert (Hle' : (length out <= system.parallelFilterThreshold)%nat).
      { apply submseteq_length in Hsub. lia. }
      rewrite (FilterProviders_may_sequential _ _ _ _ Hle' Hrun').
      rewrite FilterProviders_eq by assumption. fold f.
      rewrite Hout. apply filter_idempotent.
    + intros Hpass. now rewrite Hout, Hall.
Qed.

(** A run of the mock system on the mock pool. *)
Lemma FilterProviders_runs_select_witness :
  Forall (fun f => In f config.Filters) (system.filters (config.Init true))
  /\ system.FilterProviders_may (config.Init true) mock.Providers mock.ConsumerPolicy
       (system.FilterProviders (config.Init true) mock.Providers mock.ConsumerPolicy)
  /\ system.FilterProviders (config.Init true) mock.Providers mock.ConsumerPolicy
     ⊆+ mock.Providers.
Proof.
  assert (H : Forall (fun f => In f config.Filters) (system.filters (config.Init true))).
  { apply List.Forall_forall. intros f Hf. exact Hf. }
  split; [exact H |]. split; [apply FilterProviders_may_run |].
  exact (proj1 (FilterProviders_runs_select (config.Init true) mock.Providers
                  mock.ConsumerPolicy _ H (FilterProviders_may_run _ _ _))).
Defined.

Lemma config_passesAll_iff strict policy p :
  passesAll (config.Init strict) policy p <-> meetsPolicy policy p.
Proof.
  unfold passesAll, meetsPolicy. simpl. split.
  - intros H. split; [| split].
    + apply String.eqb_eq. apply (H filter.LocationFilter). tauto.
    + pose proof (H filter.FeatureFilter (or_intror (or_introl eq_refl))) as Hf.
      simpl in Hf. unfold filter.hasAll, filter.requiredSet in Hf.
      rewrite forallb_forall in Hf. intros r Hr. apply found_iff, Hf.
      apply list_elem_of_In, elem_of_elements, elem_of_list_to_set.
      now apply list_elem_of_In.
    + apply Z.leb_le. apply (H filter.StakeFilter). tauto.
  - intros (Hloc & Hfeat & Hstake) f [<- | [<- | [<- | []]]]; simpl.
    + now apply String.eqb_eq.
    + unfold filter.hasAll, filter.requiredSet. apply forallb_forall. intros r Hr.
      apply found_iff, Hfeat.
      apply list_elem_of_In, elem_of_elements, elem_of_list_to_set in Hr.
      now apply list_elem_of_In.
    + now apply Z.leb_le.
Qed.

(** Under the configured filters a provider survives a run of
    [FilterProviders] iff it is in the input, its location is the required
    one character for character, its features include every required
    feature and its stake is at least the minimum; and every survivor gets
    the full location score 1 under any context, so with these filters the
    location score never tells two survivors apart. *)
Theorem survivors_meet_policy strict providers policy out :
  system.FilterProviders_may (config.Init strict) providers policy out ->
  (forall p, In p out <-> In p providers /\ meetsPolicy policy p)
  /\ (forall p ctx, In p out -> score.Score score.LocationScore p policy ctx = 1).
Proof.
  intros Hrun.
  assert (Hc : Forall consistent (system.filters (config.Init strict))).
  { apply known_filters_consistent, List.Forall_forall. intros f Hf. exact Hf. }
  apply FilterProviders_may_perm in Hrun. rewrite FilterProviders_eq in Hrun by assumption.
  assert (Hin : forall p, In p out <-> In p providers /\ meetsPolicy policy p).
  { intros p. rewrite <- config_passesAll_iff with (strict := strict).
    unfold passesAll. rewrite <- forallb_forall.
    change (forallb (fun f => filter.ApplySingle f p policy)
                    (system.filters (config.Init strict)))
      with (system.filterWorker (config.Init strict) policy p).
    rewrite <- filter_In.
    split; apply Permutation_in; [exact Hrun | now apply Permutation_sym]. }
  split; [exact Hin |].
  intros p ctx Hp. apply Hin in Hp. destruct Hp as [_ [Hloc _]].
  simpl. rewrite Hloc, EqualFold_refl. reflexivity.
Qed.

(** The run of [FilterProviders] on the mock pool. *)
Lemma survivors_meet_policy_witness :
  system.FilterProviders_may (config.Init true) mock.Providers mock.ConsumerPolicy
    (system.FilterProviders (config.Init true) mock.Providers mock.ConsumerPolicy)
  /\ forall p ctx,
      In p (system.FilterProviders (config.Init true) mock.Providers mock.ConsumerPolicy) ->
      score.Score score.LocationScore p mock.ConsumerPolicy ctx = 1.
Proof.
  split; [apply FilterProviders_may_run |].
  apply (survivors_meet_policy true mock.Providers mock.ConsumerPolicy _
           (FilterProviders_may_run _ _ _)).
Defined.

(** ** The range of the final score *)

Lemma Qsum_bounds xs :
  Forall inUnit xs -> 0 <= Qsum xs /\ Qsum xs <= inject_Z (Z.of_nat (length xs)).
Proof.
  induction 1 as [| x xs [Hx0 Hx1] _ [IH0 IH1]].
  - simpl. split; apply Qle_refl.
  - cbn [Qsum fold_right length]. fold (Qsum xs).
    rewrite Nat2Z.inj_succ, <- Z.add_1_l, inject_Z_plus.
    change (inject_Z 1) with 1. split; lra.
Qed.

Lemma arithmeticMean_in_unit xs : Forall inUnit xs -> inUnit (arithmeticMean xs).
Proof.
  intros Hall. destruct xs as [| x xs]; [apply zero_in_unit |].
  unfold arithmeticMean. destruct (Qsum_bounds _ Hall) as [H0 H1].
  set (n := inject_Z (Z.of_nat (length (x :: xs)))) in *.
  assert (Hn : 0 < n).
  { unfold n. change 0 with (inject_Z 0). rewrite <- Zlt_Qlt. simpl. lia. }
  split.
  - apply Qle_shift_div_l; [exact Hn |]. now rewrite Qmult_0_l.
  - apply Qle_shift_div_r; [exact Hn |]. now rewrite Qmult_1_l.
Qed.

Lemma Qsum_nonneg xs : Forall (fun x => 0 <= x) xs -> 0 <= Qsum xs.
Proof.
  induction 1 as [| x xs Hx _ IH]; simpl; [apply Qle_refl | lra].
Qed.

Lemma rankWorker_average ps policy ctx p :
  pairing.Weights policy = ∅ ->
  pairing.Score (system.rankWorker ps policy ctx p)
  == arithmeticMean (rawOutputs (system.scorers ps) p policy ctx).
Proof.
  intros Hw. unfold system.rankWorker. cbn [pairing.Score].
  rewrite average_branch, scoreAll_scoreFrom by assumption.
  destruct (system.scorers ps) as [| s scorers]; [reflexivity |].
  cbn [length Nat.ltb Nat.leb]. rewrite scoreFrom_total. unfold arithmeticMean.
  replace (length (rawOutputs (s :: scorers) p policy ctx)) with (S (length scorers))
    by (unfold rawOutputs; now rewrite length_map).
  cbn [rawOutputs map snd]. rewrite Qplus_0_l. reflexivity.
Qed.

Lemma average_in_unit ps policy ctx p :
  pairing.Weights policy = ∅ ->
  (forall s, In s (system.scorers ps) -> inUnit (score.Score s p policy ctx)) ->
  inUnit (pairing.Score (system.rankWorker ps policy ctx p)).
Proof.
  intros Hempty Hunit. unfold inUnit. rewrite rankWorker_average by assumption.
  apply arithmeticMean_in_unit. unfold rawOutputs. apply List.Forall_forall.
  intros x Hx. apply in_map_iff in Hx as (s & <- & Hs). now apply Hunit.
Qed.

(** The average mode keeps scores in [0,1]: without weights, if every
    configured scorer returns a value in [0,1] for a provider, so is the
    provider's final score; hence under the four configured scorers every
    record ranked without weights for a pool of non-negative stakes and
    fees has its final score in [0,1].  In the weighted mode with
    non-negative weights the final score is at least 0. *)
Theorem final_score_bounds ps policy ctx p :
  (forall s, In s (system.scorers ps) -> inUnit (score.Score s p policy ctx)) ->
  (pairing.Weights policy = ∅ ->
   inUnit (pairing.Score (system.rankWorker ps policy ctx p)))
  /\ ((forall k w, pairing.Weights policy !! k = Some w -> 0 <= w) ->
      0 <= pairing.Score (system.rankWorker ps policy ctx p))
  /\ (pairing.Weights policy = ∅ ->
      forall fs strict providers out sc,
        Forall (fun x => (0 <= pairing.Stake x)%Z /\ 0 <= pairing.Fee x) providers ->
        system.RankProviders_may (system.NewPairingSystem fs config.Scorers strict)
                                 providers policy out ->
        In sc out ->
        inUnit (pairing.Score sc)).
Proof.
  intros Hunit. split; [| split].
  - intros Hempty. now apply average_in_unit.
  - intros Hpos. destruct (decide (pairing.Weights policy = ∅)) as [Hempty | Hne].
    + now apply (average_in_unit ps policy ctx p Hempty Hunit).
    + unfold system.rankWorker. cbn [pairing.Score].
      rewrite weighted_branch by assumption. rewrite weightedSumOver_sum.
      apply Qsum_nonneg, List.Forall_forall. intros x Hx.
      apply in_map_iff in Hx as ([k v] & <- & Hkv).
      apply list_elem_of_In, elem_of_map_to_list in Hkv.
      rewrite scoreAll_scoreFrom in Hkv. apply scoreFrom_entry_origin in Hkv.
      destruct Hkv as [[Hk _] | (s & Hs & _ & ->)];
        [simpl in Hk; rewrite lookup_empty in Hk; discriminate |].
      unfold entryContribution, contribution. simpl.
      destruct (pairing.Weights policy !! k) as [w |] eqn:Ew; [| apply Qle_refl].
      apply Qmult_le_0_compat; [apply (Hunit s Hs) | now apply (Hpos k)].
  - intros Hempty fs strict providers out sc Hpool Hrun Hsc.
    destruct (RankProviders_may_in _ _ _ _ _ Hrun Hsc) as [Hp ->].
    apply average_in_unit; [exact Hempty |].
    assert (Hfee : Forall (fun x => 0 <= pairing.Fee x) providers).
    { rewrite !List.Forall_forall in *. intros x Hx. now apply Hpool. }
    intros s Hs. simpl in Hs. destruct Hs as [<- | [<- | [<- | [<- | []]]]].
    + apply StakeScore_in_unit; [exact Hp |].
      rewrite List.Forall_forall in Hpool. now apply Hpool.
    + apply FeatureScore_in_unit.
    + apply LocationScore_in_unit.
    + now apply FeeScore_in_unit.
Qed.

(** Provider 5 of the mock pool under the policy without weights. *)
Lemma final_score_bounds_witness :
  (forall s, In s (system.scorers (config.Init true)) ->
     inUnit (score.Score s mock.provider5 inputs.noWeights
                         (system.preScoreCtxOf mock.Providers)))
  /\ inUnit (pairing.Score
               (system.rankWorker (config.Init true) inputs.noWeights
                                  (system.preScoreCtxOf mock.Providers) mock.provider5)).
Proof.
  assert (Hunit : forall s, In s (system.scorers (config.Init true)) ->
            inUnit (score.Score s mock.provider5 inputs.noWeights
                                (system.preScoreCtxOf mock.Providers))).
  { intros s Hs. simpl in Hs. destruct Hs as [<- | [<- | [<- | [<- | []]]]];
      split; vm_compute; discriminate. }
  split; [exact Hunit |].
  apply (final_score_bounds (config.Init true) inputs.noWeights
           (system.preScoreCtxOf mock.Providers) mock.provider5 Hunit).
  reflexivity.
Defined.

(** ** Weights under names that no scorer carries *)




(** ** What [GetPairingList] returns *)

Lemma selectTop_firstn scored :
  system.selectTop scored = map pairing.Provider_ (firstn 5 scored).
Proof.
  unfold system.selectTop, utils.Min, system.topNProviders. f_equal.
  destruct (5 <? Z.of_nat (length scored))%Z eqn:E; [reflexivity |].
  apply Z.ltb_ge in E. rewrite Nat2Z.id, firstn_all.
  symmetry. apply firstn_all2. lia.
Qed.

Lemma RankProviders_providers ps providers policy :
  map pairing.Provider_ (system.RankProviders ps providers policy) = providers.
Proof.
  rewrite RankProviders_map, map_map. simpl. apply map_id.
Qed.

(** What a run returns when it returns providers: the first five of a
    sorted rearrangement of the records ranked for the survivors. *)
Lemma GetPairingList_may_sorted ps providers policy res :
  system.GetPairingList_may ps providers policy res ->
  exists filtered sorted,
    system.FilterProviders_may ps providers policy filtered
    /\ Permutation sorted (system.RankProviders ps filtered policy)
    /\ StronglySorted (fun a b => system.less b a = false) sorted
    /\ fst res = map pairing.Provider_ (firstn 5 sorted).
Proof.
  intros Hrun.
  destruct Hrun as [filtered Hf Hlen Hs | filtered Hf Hlen Hs
                   | filtered scored sorted Hf Hlen Hr [Hperm Hsorted]].
  - exists filtered, []. apply length_zero_iff_nil in Hlen. subst filtered.
    split; [exact Hf |]. split; [reflexivity |]. split; [constructor | reflexivity].
  - exists filtered, []. apply length_zero_iff_nil in Hlen. subst filtered.
    split; [exact Hf |]. split; [reflexivity |]. split; [constructor | reflexivity].
  - exists filtered, sorted. split; [exact Hf |].
    split; [now rewrite Hperm |]. split; [exact Hsorted |].
    simpl. apply selectTop_firstn.
Qed.

Lemma submseteq_keeps_NoDup {A} (l k : list A) : l ⊆+ k -> NoDup k -> NoDup l.
Proof.
  intros Hsub Hnd. apply submseteq_sublist_l in Hsub as (k' & Hsl & Hperm).
  apply (sublist_NoDup l k'); [| exact Hsl]. now rewrite Hperm.
Qed.

(** For filters drawn from the configured set, every run of
    [GetPairingList] returns providers of the input, each at most as often
    as the input holds it (so never twice when the input holds it once),
    and only providers that pass every filter. *)
Theorem GetPairingList_returns_survivors ps providers policy res :
  Forall (fun f => In f config.Filters) (system.filters ps) ->
  system.GetPairingList_may ps providers policy res ->
  fst res ⊆+ providers
  /\ (NoDup providers -> NoDup (fst res))
  /\ (forall p, In p (fst res) -> In p providers /\ passesAll ps policy p).
Proof.
  intros Hknown Hrun. apply known_filters_consistent in Hknown.
  destruct (GetPairingList_may_sorted _ _ _ _ Hrun)
    as (filtered & sorted & Hf & Hperm & _ & Hres).
  apply FilterProviders_may_perm in Hf. rewrite FilterProviders_eq in Hf by assumption.
  assert (Hsub : fst res ⊆+ filtered).
  { rewrite Hres, <- (RankProviders_providers ps filtered policy).
    rewrite <- (Permutation_map pairing.Provider_ Hperm), <- firstn_map.
    apply sublist_submseteq, sublist_take. }
  assert (Hall : fst res ⊆+ providers).
  { etransitivity; [exact Hsub |]. rewrite Hf. apply sublist_submseteq, filter_sublist. }
  split; [exact Hall |]. split.
  - intros Hnd. now apply (submseteq_keeps_NoDup _ _ Hall).
  - intros p Hp.
    assert (Hin : In p filtered).
    { apply list_elem_of_In. eapply elem_of_submseteq; [| exact Hsub].
      now apply list_elem_of_In. }
    apply (Permutation_in _ Hf) in Hin. apply filter_In in Hin.
    destruct Hin as [Hin Hpass]. split; [exact Hin |].
    unfold passesAll. now apply forallb_forall.
Qed.

(** A run of the mock system on the mock pool. *)
Lemma GetPairingList_returns_survivors_witness :
  Forall (fun f => In f config.Filters) (system.filters (config.Init true))
  /\ system.GetPairingList_may (config.Init true) mock.Providers mock.ConsumerPolicy
       (system.GetPairingList (config.Init true) mock.Providers mock.ConsumerPolicy)
  /\ fst (system.GetPairingList (config.Init true) mock.Providers mock.ConsumerPolicy)
     ⊆+ mock.Providers.
Proof.
  assert (H : Forall (fun f => In f config.Filters) (system.filters (config.Init true))).
  { apply List.Forall_forall. intros f Hf. exact Hf. }
  split; [exact H |]. split; [apply GetPairingList_may_run |].
  exact (proj1 (GetPairingList_returns_survivors (config.Init true) mock.Providers
                  mock.ConsumerPolicy _ H (GetPairingList_may_run _ _ _))).
Defined.

Lemma sorted_prefix_dominates {A} (R : A -> A -> Prop) (l1 l2 : list A) :
  StronglySorted R (l1 ++ l2) -> forall a b, In a l1 -> In b l2 -> R a b.
Proof.
  induction l1 as [| x l1 IH]; simpl; intros Hs a b Ha Hb; [destruct Ha |].
  inversion Hs as [| ? ? Hs' Hx]; subst.
  destruct Ha as [<- | Ha].
  - rewrite List.Forall_forall in Hx. apply Hx, in_or_app. now right.
  - now apply IH.
Qed.

(** Every run of [GetPairingList] returns the providers of the first five
    records of a rearrangement of the ranked records of the survivors that
    is in descending order of final score; no record left out has a higher
    final score than a record kept. *)
Theorem GetPairingList_returns_top_scores ps providers policy res :
  system.GetPairingList_may ps providers policy res ->
  exists filtered sorted,
    system.FilterProviders_may ps providers policy filtered
    /\ Permutation sorted (system.RankProviders ps filtered policy)
    /\ fst res = map pairing.Provider_ (firstn 5 sorted)
    /\ StronglySorted (fun a b => pairing.Score b <= pairing.Score a) sorted
    /\ (forall kept left, In kept (firstn 5 sorted) -> In left (skipn 5 sorted) ->
          pairing.Score left <= pairing.Score kept).
Proof.
  intros Hrun.
  destruct (GetPairingList_may_sorted _ _ _ _ Hrun)
    as (filtered & sorted & Hf & Hperm & Hsorted & Hres).
  exists filtered, sorted.
  assert (Hs : StronglySorted (fun a b => pairing.Score b <= pairing.Score a) sorted).
  { clear -Hsorted. induction Hsorted as [| a l _ IH Ha]; constructor; [exact IH |].
    rewrite List.Forall_forall in Ha |- *. intros b Hb. now apply less_false_iff, Ha. }
  split; [exact Hf |]. split; [exact Hperm |]. split; [exact Hres |].
  split; [exact Hs |].
  intros kept left Hk Hl.
  rewrite <- (firstn_skipn 5 sorted) in Hs.
  exact (sorted_prefix_dominates _ _ _ Hs kept left Hk Hl).
Qed.

(** A run of the mock system on the mock pool. *)
Lemma GetPairingList_returns_top_scores_witness :
  system.GetPairingList_may (config.Init true) mock.Providers mock.ConsumerPolicy
    (system.GetPairingList (config.Init true) mock.Providers mock.ConsumerPolicy)
  /\ exists filtered sorted,
      system.FilterProviders_may (config.Init true) mock.Providers mock.ConsumerPolicy filtered
      /\ Permutation sorted (system.RankProviders (config.Init true) filtered mock.ConsumerPolicy)
      /\ fst (system.GetPairingList (config.Init true) mock.Providers mock.ConsumerPolicy)
         = map pairing.Provider_ (firstn 5 sorted)
      /\ StronglySorted (fun a b => pairing.Score b <= pairing.Score a) sorted
      /\ (forall kept left, In kept (firstn 5 sorted) -> In left (skipn 5 sorted) ->
            pairing.Score left <= pairing.Score kept).
Proof.
  split; [apply GetPairingList_may_run |].
  apply (GetPairingList_returns_top_scores (config.Init true) mock.Providers
           mock.ConsumerPolicy _ (GetPairingList_may_run _ _ _)).
Defined.

(** ** When the ranking is determined *)

Lemma distinctScores_perm l l' : Permutation l l' -> distinctScores l -> distinctScores l'.
Proof.
  unfold distinctScores. induction 1 as [| x l l' Hp IH | x y l | l l' l'' _ IH1 _ IH2];
    intros Hd.
  - exact Hd.
  - inversion Hd as [| ? ? Hx Hl]; subst. constructor; [| now apply IH].
    rewrite List.Forall_forall in Hx |- *. intros b Hb. apply Hx.
    now apply (Permutation_in _ (Permutation_sym Hp)).
  - inversion Hd as [| ? ? Hy Hl]; subst. inversion Hl as [| ? ? Hx Hl']; subst.
    inversion Hy as [| ? ? Hyx Hy']; subst.
    constructor; [| now constructor].
    constructor; [| exact Hx]. intros H. apply Hyx. now symmetry.
  - auto.
Qed.

Lemma distinct_sorted_strict l :
  distinctScores l ->
  StronglySorted (fun a b => system.less b a = false) l ->
  StronglySorted (fun a b => system.less a b = true) l.
Proof.
  unfold distinctScores. induction 1 as [| a l Ha _ IH]; intros Hs.
  - constructor.
  - inversion Hs as [| ? ? Hs' Hge]; subst. constructor; [now apply IH |].
    rewrite List.Forall_forall in Ha, Hge |- *. intros b Hb.
    apply less_true_iff. specialize (Ha b Hb). specialize (Hge b Hb).
    apply less_false_iff in Hge. apply Qle_lt_or_eq in Hge.
    destruct Hge as [Hlt | Heq]; [exact Hlt |]. exfalso. apply Ha. now symmetry.
Qed.

(** Steps 3 and 4 of [GetPairingList] erase the arrival order of the
    records: when no two of the ranked records have the same final score,
    the same records in any two arrival orders, sorted by any two runs of
    the unstable sort, give one and the same sorted list, the one the
    insertion sort computes, and so the same selection. *)
Theorem ranking_determined_by_scores scored scored' sorted sorted' :
  Permutation scored scored' ->
  distinctScores scored ->
  system.sortSlice_may scored sorted ->
  system.sortSlice_may scored' sorted' ->
  sorted' = sorted
  /\ sorted = system.sortSlice scored
  /\ system.selectTop sorted' = system.selectTop sorted.
Proof.
  intros Hperm Hdistinct [Hp Hs] [Hp' Hs'].
  assert (Hstrict : StronglySorted (fun a b => system.less a b = true)
                                   (system.sortSlice scored)).
  { apply distinct_sorted_strict; [| apply sortSlice_sorted].
    apply (distinctScores_perm scored); [| exact Hdistinct].
    apply Permutation_sym, sortSlice_perm. }
  assert (H1 : sorted = system.sortSlice scored).
  { apply sorted_rearrangement_unique; [exact Hstrict |].
    split; [| exact Hs]. rewrite Hp. apply Permutation_sym, sortSlice_perm. }
  assert (H2 : sorted' = system.sortSlice scored).
  { apply sorted_rearrangement_unique; [exact Hstrict |].
    split; [| exact Hs']. rewrite Hp', <- Hperm. apply Permutation_sym, sortSlice_perm. }
  split; [congruence |]. split; [exact H1 | congruence].
Qed.

(** The three ranked survivors of the mock pool, in task order and in
    the reverse order. *)
Lemma ranking_determined_by_scores_witness :
  distinctScores (system.RankProviders (config.Init true)
                    [mock.provider1; mock.provider5; mock.provider8] mock.ConsumerPolicy)
  /\ system.sortSlice
       (rev (system.RankProviders (config.Init true)
               [mock.provider1; mock.provider5; mock.provider8] mock.ConsumerPolicy))
     = system.sortSlice
         (system.RankProviders (config.Init true)
            [mock.provider1; mock.provider5; mock.provider8] mock.ConsumerPolicy).
Proof.
  assert (Hd : distinctScores (system.RankProviders (config.Init true)
                    [mock.provider1; mock.provider5; mock.provider8] mock.ConsumerPolicy)).
  { rewrite RankProviders_map. cbn [map].
    repeat constructor; intros H; vm_compute in H; discriminate H. }
  split; [exact Hd |].
  exact (proj1 (ranking_determined_by_scores _ _ _ _
                  (Permutation_rev _) Hd (sortSlice_may_run _) (sortSlice_may_run _))).
Defined.

(** ** Strict mode *)

(** The strict-mode flag only matters when no provider survives the
    filters: when [FilterProviders] leaves at least one provider, the
    strict and the lenient system over the same filters and scorers have
    exactly the same runs of [GetPairingList], none of them an error, and
    the function returns the same result for both. *)
Theorem strict_mode_only_matters_when_empty fs scs providers policy :
  system.FilterProviders (system.NewPairingSystem fs scs true) providers policy <> [] ->
  (forall res,
     system.GetPairingList_may (system.NewPairingSystem fs scs true) providers policy res
     <-> system.GetPairingList_may (system.NewPairingSystem fs scs false) providers policy res)
  /\ (forall strict res,
        system.GetPairingList_may (system.NewPairingSystem fs scs strict) providers policy res ->
        snd res = None)
  /\ system.GetPairingList (system.NewPairingSystem fs scs true) providers policy
     = system.GetPairingList (system.NewPairingSystem fs scs false) providers policy.
Proof.
  intros Hne.
  assert (Hlen : forall strict filtered,
            system.FilterProviders_may (system.NewPairingSystem fs scs strict)
                                       providers policy filtered ->
            length filtered <> 0%nat).
  { intros strict filtered Hf. rewrite (FilterProviders_may_length _ _ _ _ Hf).
    intros H0. apply length_zero_iff_nil in H0. now apply Hne. }
  assert (Hswap : forall b b' res,
            system.GetPairingList_may (system.NewPairingSystem fs scs b) providers policy res ->
            system.GetPairingList_may (system.NewPairingSystem fs scs b') providers policy res).
  { intros b b' res Hrun.
    destruct Hrun as [filtered Hf Hl _ | filtered Hf Hl _
                     | filtered scored sorted Hf Hl Hr Hsort].
    - now apply Hlen in Hf.
    - now apply Hlen in Hf.
    - exact (system.run_ranked (system.NewPairingSystem fs scs b') providers policy
               filtered scored sorted Hf Hl Hr Hsort). }
  split; [| split].
  - intros res. split; apply Hswap.
  - intros strict res Hrun.
    destruct Hrun as [filtered Hf Hl _ | filtered Hf Hl _ | ? ? ? _ _ _ _];
      [now apply Hlen in Hf | now apply Hlen in Hf | reflexivity].
  - unfold system.GetPairingList.
    change (system.FilterProviders (system.NewPairingSystem fs scs false) providers policy)
      with (system.FilterProviders (system.NewPairingSystem fs scs true) providers policy).
    destruct (system.FilterProviders (system.NewPairingSystem fs scs true) providers policy)
      as [| p filtered]; [congruence | reflexivity].
Qed.

(** The mock pool has survivors under the mock policy. *)
Lemma strict_mode_only_matters_when_empty_witness :
  system.FilterProviders (system.NewPairingSystem config.Filters config.Scorers true)
                         mock.Providers mock.ConsumerPolicy <> []
  /\ system.GetPairingList (system.NewPairingSystem config.Filters config.Scorers true)
                           mock.Providers mock.ConsumerPolicy
     = system.GetPairingList (system.NewPairingSystem config.Filters config.Scorers false)
                             mock.Providers mock.ConsumerPolicy.
Proof.
  assert (Hne : system.FilterProviders
                  (system.NewPairingSystem config.Filters config.Scorers true)
                  mock.Providers mock.ConsumerPolicy <> []).
  { intros H. apply (f_equal (@length _)) in H. vm_compute in H. discriminate H. }
  split; [exact Hne |].
  apply (strict_mode_only_matters_when_empty config.Filters config.Scorers mock.Providers
           mock.ConsumerPolicy Hne).
Defined.

(** ** [ValidateWeights] *)

Lemma sumWeightsOver_values {A} (ar : arith.Arith A) (entries : list (string * A)) :
  arith.sumWeightsOver ar entries
  = fold_left (arith.add ar) (map snd entries) (arith.zero ar).
Proof.
  unfold arith.sumWeightsOver. generalize (arith.zero ar).
  induction entries as [| e entries IH]; intros t; simpl; [reflexivity | apply IH].
Qed.

Lemma ValidateWeights_values {A} (ar : arith.Arith A) (entries entries' : list (string * A)) :
  map snd entries = map snd entries' ->
  arith.ValidateWeights ar entries = arith.ValidateWeights ar entries'.
Proof.
  intros Hv. unfold arith.ValidateWeights, arith.checkWeightSum.
  rewrite !sumWeightsOver_values, Hv.
  replace (length entries') with (length entries); [reflexivity |].
  rewrite <- (length_map snd entries), Hv. apply length_map.
Qed.

(** [ValidateWeights] accepts the empty (or nil) mapping; for a non-empty
    mapping it accepts iff the total accumulated in visiting order compares
    equal to 1, and an error reports that total; the verdict depends only
    on the sequence of values visited, not on the keys, so scorer names
    are not checked.  In binary64 the verdict depends on the visiting
    order: the weights 0.7, 0.2, 0.1 are accepted when visited as 0.1,
    0.2, 0.7 and rejected when visited as 0.7, 0.2, 0.1; and ten weights
    of 0.1 are rejected in every order. *)
Theorem ValidateWeights_verdict :
  (forall A (ar : arith.Arith A),
     arith.ValidateWeights ar [] = None
     /\ (forall entries : list (string * A), entries <> [] ->
           (arith.ValidateWeights ar entries = None
            <-> arith.eqb ar (arith.sumWeightsOver ar entries) (arith.one ar) = true))
     /\ (forall (entries : list (string * A)) total,
           arith.ValidateWeights ar entries = Some total ->
           total = arith.sumWeightsOver ar entries
           /\ arith.eqb ar total (arith.one ar) = false /\ entries <> [])
     /\ (forall entries entries' : list (string * A),
           map snd entries = map snd entries' ->
           arith.ValidateWeights ar entries = arith.ValidateWeights ar entries'))
  /\ (Permutation inputs.sevenTwoOne inputs.oneTwoSeven
      /\ arith.ValidateWeights arith.binary64 inputs.oneTwoSeven = None
      /\ arith.ValidateWeights arith.binary64 inputs.sevenTwoOne <> None)
  /\ (forall entries : list (string * float),
        map snd entries = repeat (arith.decimal 1 10) 10 ->
        arith.ValidateWeights arith.binary64 entries <> None).
Proof.
  split; [| split].
  - intros A ar. split; [reflexivity |]. split; [| split].
    + intros entries Hne. unfold arith.ValidateWeights, arith.checkWeightSum.
      destruct entries as [| e entries]; [congruence |]. cbn [length Nat.eqb].
      destruct (arith.eqb ar (arith.sumWeightsOver ar (e :: entries)) (arith.one ar));
        simpl; split; congruence.
    + intros entries total Hv. unfold arith.ValidateWeights, arith.checkWeightSum in Hv.
      destruct entries as [| e entries]; [discriminate |]. cbn [length Nat.eqb] in Hv.
      destruct (arith.eqb ar (arith.sumWeightsOver ar (e :: entries)) (arith.one ar)) eqn:E;
        simpl in Hv; [discriminate |].
      injection Hv as <-. split; [reflexivity |]. split; [exact E | discriminate].
    + intros entries entries'. apply ValidateWeights_values.
  - split; [| split].
    + unfold inputs.sevenTwoOne, inputs.oneTwoSeven.
      apply (Permutation_rev [("a", arith.decimal 7 10); ("b", arith.decimal 2 10);
                              ("c", arith.decimal 1 10)]).
    + vm_compute. reflexivity.
    + vm_compute. discriminate.
  - intros entries Hv.
    rewrite (ValidateWeights_values arith.binary64 entries
               (map (pair "w") (repeat (arith.decimal 1 10) 10))).
    + vm_compute. discriminate.
    + rewrite Hv. reflexivity.
Qed.

(** ** The feature score of a survivor *)

Lemma filter_partition_length {A} (f : A -> bool) (l : list A) :
  (length (List.filter f l) + length (List.filter (fun x => negb (f x)) l))%nat = length l.
Proof.
  induction l as [| a l IH]; simpl; [reflexivity |].
  destruct (f a); simpl; lia.
Qed.

Lemma required_among_features required features :
  NoDup features -> NoDup required ->
  (forall r, In r required -> In r features) ->
  length (List.filter (fun pf => existsb (String.eqb pf) required) features) = length required.
Proof.
  intros Hf Hr Hsub. apply Permutation_length. apply NoDup_Permutation.
  - apply (sublist_NoDup _ features); [exact Hf | apply filter_sublist].
  - exact Hr.
  - intros x. rewrite !list_elem_of_In, filter_In, existsb_exists. split.
    + intros (_ & y & Hy & Heq). apply String.eqb_eq in Heq. now subst.
    + intros Hx. split; [now apply Hsub |]. exists x. split; [exact Hx | apply String.eqb_refl].
Qed.

(** For a provider that the feature filter accepts, when neither its
    feature list nor the list of required features repeats an entry, the
    feature score is 1 minus the number of required features over the
    number of its features; so a provider that offers exactly the required
    features scores 0. *)
Theorem FeatureScore_of_survivor p policy ctx :
  NoDup (pairing.Features p) ->
  NoDup (pairing.RequiredFeatures policy) ->
  pairing.Features p <> [] ->
  filter.ApplySingle filter.FeatureFilter p policy = true ->
  (length (pairing.RequiredFeatures policy) <= length (pairing.Features p))%nat
  /\ score.Score score.FeatureScore p policy ctx
     == 1 - inject_Z (Z.of_nat (length (pairing.RequiredFeatures policy)))
            / inject_Z (Z.of_nat (length (pairing.Features p)))
  /\ (length (pairing.Features p) = length (pairing.RequiredFeatures policy) ->
      score.Score score.FeatureScore p policy ctx == 0).
Proof.
  intros Hf Hr Hne Hpass.
  assert (Hsub : forall r, In r (pairing.RequiredFeatures policy) -> In r (pairing.Features p)).
  { simpl in Hpass. unfold filter.hasAll, filter.requiredSet in Hpass.
    rewrite forallb_forall in Hpass. intros r Hr'. apply found_iff, Hpass.
    apply list_elem_of_In, elem_of_elements, elem_of_list_to_set.
    now apply list_elem_of_In. }
  pose proof (required_among_features _ _ Hf Hr Hsub) as Hreq.
  pose proof (filter_partition_length
                (fun pf => existsb (String.eqb pf) (pairing.RequiredFeatures policy))
                (pairing.Features p)) as Hpart.
  cbv beta in Hpart.
  change (List.filter (fun x => negb (existsb (String.eqb x) (pairing.RequiredFeatures policy)))
                      (pairing.Features p))
    with (extraFeatures (pairing.RequiredFeatures policy) (pairing.Features p)) in Hpart.
  rewrite Hreq in Hpart.
  assert (Hscore : score.Score score.FeatureScore p policy ctx
                   == 1 - inject_Z (Z.of_nat (length (pairing.RequiredFeatures policy)))
                          / inject_Z (Z.of_nat (length (pairing.Features p)))).
  { rewrite FeatureScore_ratio by assumption.
    set (extra := length (extraFeatures (pairing.RequiredFeatures policy)
                                        (pairing.Features p))) in *.
    set (r := length (pairing.RequiredFeatures policy)) in *.
    set (n := length (pairing.Features p)) in *.
    assert (Hn : ~ inject_Z (Z.of_nat n) == 0).
    { unfold Qeq. cbn [Qnum Qden inject_Z]. rewrite Z.mul_1_r. simpl.
      intros H0. apply (Nat2Z.inj n 0%nat) in H0.
      apply length_zero_iff_nil in H0. contradiction. }
    replace (Z.of_nat extra) with (Z.of_nat n + - Z.of_nat r)%Z by lia.
    rewrite inject_Z_plus, inject_Z_opp. field. exact Hn. }
  split; [lia |]. split; [exact Hscore |].
  intros Hlen. rewrite Hscore, Hlen. unfold Qdiv. rewrite Qmult_inv_r; [ring |].
  unfold Qeq. cbn [Qnum Qden inject_Z]. rewrite Z.mul_1_r. simpl.
  intros H0. apply (Nat2Z.inj _ 0%nat) in H0. rewrite <- Hlen in H0.
  apply length_zero_iff_nil in H0. contradiction.
Qed.

(** Provider 5 of the mock pool: four features, two of them required. *)
Lemma FeatureScore_of_survivor_witness :
  NoDup (pairing.Features mock.provider5)
  /\ NoDup (pairing.RequiredFeatures mock.ConsumerPolicy)
  /\ pairing.Features mock.provider5 <> []
  /\ filter.ApplySingle filter.FeatureFilter mock.provider5 mock.ConsumerPolicy = true
  /\ score.Score score.FeatureScore mock.provider5 mock.ConsumerPolicy
                 (system.preScoreCtxOf mock.Providers)
     == 1 - inject_Z (Z.of_nat (length (pairing.RequiredFeatures mock.ConsumerPolicy)))
            / inject_Z (Z.of_nat (length (pairing.Features mock.provider5))).
Proof.
  assert (Hf : NoDup (pairing.Features mock.provider5)).
  { simpl. repeat constructor; rewrite ?list_elem_of_In; simpl; intuition discriminate. }
  assert (Hr : NoDup (pairing.RequiredFeatures mock.ConsumerPolicy)).
  { simpl. repeat constructor; rewrite ?list_elem_of_In; simpl; intuition discriminate. }
  assert (Hne : pairing.Features mock.provider5 <> []) by discriminate.
  assert (Hpass : filter.ApplySingle filter.FeatureFilter mock.provider5 mock.ConsumerPolicy
                  = true) by (vm_compute; reflexivity).
  split; [exact Hf |]. split; [exact Hr |]. split; [exact Hne |]. split; [exact Hpass |].
  apply (FeatureScore_of_survivor mock.provider5 mock.ConsumerPolicy
           (system.preScoreCtxOf mock.Providers) Hf Hr Hne Hpass).
Defined.
